(** * An LS-8 style CPU emulator (cpu.py): shallow embedding and properties

    The emulator is a Python class [CPU] whose methods mutate the fields of
    one object, print to standard output and stop by raising exceptions
    ([sys.exit] raises [SystemExit]).  The embedding keeps that shape: a
    record for the object, a state monad in which an exception leaves the
    mutations made so far in place, and one definition for each method.

    Python integers are unbounded, so every cell of [ram] and [reg], the
    program counter and the flags are in [Z]; nothing in cpu.py masks a value
    to eight bits. *)

From Stdlib Require Import ZArith String Ascii List Lia Bool.
From stdpp Require Import base option list.
Import ListNotations.
Local Open Scope Z_scope.

(** ** Exceptions, output and the machine object *)

(** The exceptions that cpu.py can raise.  [SystemExit None] is [sys.exit()],
    [SystemExit (Some n)] is [sys.exit(n)]; [OSError name] is an exception of
    the named subclass of OSError other than FileNotFoundError. *)
Inductive exn : Type :=
| IndexError
| TypeError
| KeyError (key : Z)
| ValueError
| FileNotFoundError
| OSError (name : string)
| UnicodeDecodeError
| PyException (msg : string)
| SystemExit (code : option Z).

(** One item for every call of [print]. *)
Inductive output : Type :=
| OStr (s : string)                  (* print("...") *)
| OInt (n : Z)                       (* print(n), in decimal *)
| OStrInt (s : string) (n : Z)       (* print(f"...{n}") *)
| OTrace (pc b0 b1 b2 : Z)           (* the TRACE: prefix written by trace() *)
| OHex (n : Z).                      (* print(" %02X" % n, end='') *)

(** The fields of a [CPU] object, and the text written to standard output so
    far (oldest first).  [None] in an [option Z] field is Python's [None]. *)
Record CPU : Type := mkCPU {
  ram : list Z;
  reg : list Z;
  operand_a : option Z;
  operand_b : option Z;
  PC : Z;
  MAR : option Z;
  MDR : option Z;
  FL : Z;
  stdout : list output
}.

Inductive result (A : Type) : Type :=
| Ok (a : A)
| Raise (e : exn).
Arguments Ok {A} a.
Arguments Raise {A} e.

(** A method body: it runs on the object and leaves it changed, whether it
    returns or raises. *)
Definition M (A : Type) : Type := CPU -> CPU * result A.

Definition pure {A} (a : A) : M A := fun s => (s, Ok a).
Definition raise {A} (e : exn) : M A := fun s => (s, Raise e).
Definition bind {A B} (m : M A) (k : A -> M B) : M B :=
  fun s => match m s with
           | (s1, Ok a) => k a s1
           | (s1, Raise e) => (s1, Raise e)
           end.

Notation "'do' x <- m ; k" := (bind m (fun x => k))
  (at level 10, x name, m at level 100, k at level 200).

(** [try: m except FileNotFoundError: h] *)
Definition try_except_FileNotFoundError {A} (m h : M A) : M A :=
  fun s => match m s with
           | (s1, Raise FileNotFoundError) => h s1
           | r => r
           end.

(** ** Python list subscripts *)

(** [l[i]] on a list of length [n]: indices [0..n-1] count from the front,
    [-n..-1] from the end, anything else raises [IndexError]. *)
Definition py_index (n : nat) (i : Z) : option nat :=
  if (0 <=? i) && (i <? Z.of_nat n) then Some (Z.to_nat i)
  else if (- Z.of_nat n <=? i) && (i <? 0) then Some (Z.to_nat (i + Z.of_nat n))
  else None.

Definition getitem (l : list Z) (i : Z) : option Z :=
  match py_index (length l) i with
  | Some k => l !! k
  | None => None
  end.

Definition setitem (l : list Z) (i : Z) (v : Z) : option (list Z) :=
  match py_index (length l) i with
  | Some k => Some (<[k := v]> l)
  | None => None
  end.

(** ** Field access *)

Definition set_ram (l : list Z) (s : CPU) : CPU :=
  mkCPU l (reg s) (operand_a s) (operand_b s) (PC s) (MAR s) (MDR s) (FL s) (stdout s).
Definition set_reg (l : list Z) (s : CPU) : CPU :=
  mkCPU (ram s) l (operand_a s) (operand_b s) (PC s) (MAR s) (MDR s) (FL s) (stdout s).
Definition set_operand_a (v : option Z) (s : CPU) : CPU :=
  mkCPU (ram s) (reg s) v (operand_b s) (PC s) (MAR s) (MDR s) (FL s) (stdout s).
Definition set_operand_b (v : option Z) (s : CPU) : CPU :=
  mkCPU (ram s) (reg s) (operand_a s) v (PC s) (MAR s) (MDR s) (FL s) (stdout s).
Definition set_PC (v : Z) (s : CPU) : CPU :=
  mkCPU (ram s) (reg s) (operand_a s) (operand_b s) v (MAR s) (MDR s) (FL s) (stdout s).
Definition set_MAR (v : option Z) (s : CPU) : CPU :=
  mkCPU (ram s) (reg s) (operand_a s) (operand_b s) (PC s) v (MDR s) (FL s) (stdout s).
Definition set_MDR (v : option Z) (s : CPU) : CPU :=
  mkCPU (ram s) (reg s) (operand_a s) (operand_b s) (PC s) (MAR s) v (FL s) (stdout s).
Definition set_FL (v : Z) (s : CPU) : CPU :=
  mkCPU (ram s) (reg s) (operand_a s) (operand_b s) (PC s) (MAR s) (MDR s) v (stdout s).
Definition add_stdout (o : output) (s : CPU) : CPU :=
  mkCPU (ram s) (reg s) (operand_a s) (operand_b s) (PC s) (MAR s) (MDR s) (FL s)
        (stdout s ++ [o]).

Definition read {A} (f : CPU -> A) : M A := fun s => (s, Ok (f s)).
Definition write (f : CPU -> CPU) : M unit := fun s => (f s, Ok tt).
Definition print (o : output) : M unit := write (add_stdout o).

(** [self.reg[i]] and [self.ram[i]] as expressions; a [None] subscript is a
    [TypeError]. *)
Definition load_reg (i : option Z) : M Z :=
  fun s => match i with
           | None => (s, Raise TypeError)
           | Some i => match getitem (reg s) i with
                       | Some v => (s, Ok v)
                       | None => (s, Raise IndexError)
                       end
           end.

Definition load_ram (i : Z) : M Z :=
  fun s => match getitem (ram s) i with
           | Some v => (s, Ok v)
           | None => (s, Raise IndexError)
           end.

(** [self.reg[i] = v] and [self.ram[i] = v]. *)
Definition store_reg (i : option Z) (v : Z) : M unit :=
  fun s => match i with
           | None => (s, Raise TypeError)
           | Some i => match setitem (reg s) i v with
                       | Some l => (set_reg l s, Ok tt)
                       | None => (s, Raise IndexError)
                       end
           end.

Definition store_ram (i : Z) (v : Z) : M unit :=
  fun s => match setitem (ram s) i v with
           | Some l => (set_ram l s, Ok tt)
           | None => (s, Raise IndexError)
           end.

(** ** The operation tables *)

Inductive mnemonic : Type :=
| HLT | LDI | PRN | PUSH | POP | CALL | RET | JMP | JEQ | JNE.

(** [binary_op]: opcode to instruction name; [None] where the dictionary has
    no such key. *)
Definition binary_op (ireg : Z) : option mnemonic :=
  match ireg with
  | 1 => Some HLT      (* 0b00000001 *)
  | 130 => Some LDI    (* 0b10000010 *)
  | 71 => Some PRN     (* 0b01000111 *)
  | 69 => Some PUSH    (* 0b01000101 *)
  | 70 => Some POP     (* 0b01000110 *)
  | 80 => Some CALL    (* 0b01010000 *)
  | 17 => Some RET     (* 0b00010001 *)
  | 84 => Some JMP     (* 0b01010100 *)
  | 85 => Some JEQ     (* 0b01010101 *)
  | 86 => Some JNE     (* 0b01010110 *)
  | _ => None
  end.

Inductive alu_name : Type := ADD | SUB | MUL | CMP.

(** [math_op]: ALU operation name to opcode. *)
Definition math_op (n : alu_name) : Z :=
  match n with
  | ADD => 160         (* 0b10100000 *)
  | SUB => 161         (* 0b10100001 *)
  | MUL => 162         (* 0b10100010 *)
  | CMP => 167         (* 0b10100111 *)
  end.

(** The stack pointer is register 7. *)
Definition SP : Z := 7.

(** ** The constructor *)

Definition init : CPU :=
  mkCPU (replicate 256 0) (<[7%nat := 244]> (replicate 8 0))
        None None 0 None None 0 [].

(** ** Instruction handlers *)

(** [call]: push the return address, jump to the address in the register. *)
Definition call : M unit :=
  do sp <- load_reg (Some SP);
  do _ <- store_reg (Some SP) (sp - 1);
  do pc <- read PC;
  let instruction_address := pc + 2 in
  do sp <- load_reg (Some SP);
  do _ <- store_ram sp instruction_address;
  do register <- read operand_a;
  do address <- load_reg register;
  write (set_PC address).

Definition ret : M unit :=
  do sp <- load_reg (Some SP);
  do address <- load_ram sp;
  do _ <- write (set_PC address);
  do sp <- load_reg (Some SP);
  store_reg (Some SP) (sp + 1).

Definition jmp : M unit :=
  do a <- read operand_a;
  do address <- load_reg a;
  do _ <- print (OStr "JUMPING");
  write (set_PC address).

(** In Python [&] binds tighter than [==]: the test is [(FL & 1) == 1]. *)
Definition jeq : M unit :=
  do a <- read operand_a;
  do address <- load_reg a;
  do fl <- read FL;
  if Z.land fl 1 =? 1 then write (set_PC address)
  else do pc <- read PC; write (set_PC (pc + 2)).

Definition jne : M unit :=
  do a <- read operand_a;
  do address <- load_reg a;
  do fl <- read FL;
  if Z.land fl 1 =? 0 then write (set_PC address)
  else do pc <- read PC; write (set_PC (pc + 2)).

Definition halt : M unit := raise (SystemExit None).

(** [ldi]: [run] always latches integers into both operand fields before a
    handler runs.  On an object that has never fetched, Python would store
    [None] in the register; register cells are integers here, and that call
    is reported as a [TypeError]. *)
Definition ldi : M unit :=
  do b <- read operand_b;
  do a <- read operand_a;
  match b with
  | Some v => store_reg a v
  | None => raise TypeError
  end.

Definition prn : M unit :=
  do a <- read operand_a;
  do v <- load_reg a;
  print (OInt v).

Definition push : M unit :=
  do sp <- load_reg (Some SP);
  do _ <- store_reg (Some SP) (sp - 1);
  do a <- read operand_a;
  do value <- load_reg a;
  do sp <- load_reg (Some SP);
  store_ram sp value.

Definition pop : M unit :=
  do sp <- load_reg (Some SP);
  do value <- load_ram sp;
  do register <- read operand_a;
  do _ <- store_reg register value;
  do sp <- load_reg (Some SP);
  store_reg (Some SP) (sp + 1).

Definition ram_read (address : Z) : M Z :=
  do _ <- write (set_MAR (Some address));
  do v <- load_ram address;
  do _ <- write (set_MDR (Some v));
  load_ram address.

Definition ram_write (value address : Z) : M unit :=
  do _ <- write (set_MAR (Some address));
  do _ <- write (set_MDR (Some value));
  store_ram address value.

(** The branch table built by the constructor binds every name of
    [binary_op] to its method. *)
Definition instructions (name : mnemonic) : M unit :=
  match name with
  | HLT => halt
  | LDI => ldi
  | PRN => prn
  | PUSH => push
  | POP => pop
  | CALL => call
  | RET => ret
  | JMP => jmp
  | JEQ => jeq
  | JNE => jne
  end.

(** ** The ALU *)

Definition ALU (op : Z) (reg_a reg_b : option Z) : M unit :=
  if op =? math_op ADD then
    do _ <- print (OStr "ADDING");
    do x <- load_reg reg_a;
    do y <- load_reg reg_b;
    store_reg reg_a (x + y)
  else if op =? math_op SUB then
    do _ <- print (OStr "SUBTRACTING");
    do x <- load_reg reg_a;
    do y <- load_reg reg_b;
    store_reg reg_a (x - y)
  else if op =? math_op MUL then
    do _ <- print (OStr "MULTIPYING");
    do x <- load_reg reg_a;
    do y <- load_reg reg_b;
    store_reg reg_a (x * y)
  else if op =? math_op CMP then
    do a <- read operand_a;
    do valueA <- load_reg a;
    do b <- read operand_b;
    do valueB <- load_reg b;
    do _ <- (if valueA =? valueB then write (set_FL 1) else pure tt);
    do _ <- (if valueA <? valueB then write (set_FL 4) else pure tt);
    if valueA >? valueB then write (set_FL 2) else pure tt
  else raise (PyException "Unsupported ALU operation").

(** ** The execution loop *)

Fixpoint print_regs (idx : list Z) : M unit :=
  match idx with
  | [] => pure tt
  | i :: rest =>
      do v <- load_reg (Some i);
      do _ <- print (OHex v);
      print_regs rest
  end.

Definition trace : M unit :=
  do pc <- read PC;
  do b0 <- ram_read pc;
  do pc1 <- read PC;
  do b1 <- ram_read (pc1 + 1);
  do pc2 <- read PC;
  do b2 <- ram_read (pc2 + 2);
  do _ <- print (OTrace pc b0 b1 b2);
  print_regs [0; 1; 2; 3; 4; 5; 6; 7].

(** [(ireg << 2) % 255 >> 7]: the shifts bind looser than [%]. *)
Definition alu_field (ireg : Z) : Z := Z.shiftr (Z.shiftl ireg 2 mod 255) 7.

(** [(ireg << 3) % 255 >> 7] *)
Definition pc_field (ireg : Z) : Z := Z.shiftr (Z.shiftl ireg 3 mod 255) 7.

Definition move_PC (ireg : Z) : M unit :=
  if negb (pc_field ireg =? 1) then
    do pc <- read PC;
    write (set_PC (pc + (Z.shiftr ireg 6 + 1)))
  else pure tt.

(** The fetch at the top of the loop body: the opcode and both operand
    bytes are read whatever the instruction is. *)
Definition fetch : M Z :=
  do pc <- read PC;
  do ireg <- ram_read pc;
  do pc <- read PC;
  do a <- ram_read (pc + 1);
  do _ <- write (set_operand_a (Some a));
  do pc <- read PC;
  do b <- ram_read (pc + 2);
  do _ <- write (set_operand_b (Some b));
  pure ireg.

(** What one iteration does with the fetched opcode, before [move_PC]. *)
Definition alu_branch (ireg : Z) : M unit :=
  do a <- read operand_a;
  do b <- read operand_b;
  ALU ireg a b.

Definition basic_branch (ireg : Z) : M unit :=
  match binary_op ireg with
  | Some name => instructions name
  | None => raise (KeyError ireg)
  end.

Definition unrecognized_branch (ireg : Z) : M unit :=
  do _ <- print (OStrInt "Space dog did not understand that command: " ireg);
  do _ <- trace;
  do _ <- print (OStr "None");
  raise (SystemExit (Some 1)).

(** The body of [while True:] in [run]. *)
Definition run_step : M unit :=
  do ireg <- fetch;
  if alu_field ireg =? 1 then
    do _ <- alu_branch ireg;
    move_PC ireg
  else if alu_field ireg =? 0 then
    do _ <- basic_branch ireg;
    move_PC ireg
  else unrecognized_branch ireg.

(** [run]: the loop leaves only through an exception.  [run fuel] performs
    at most [fuel] iterations; [None] means the loop is still running. *)
Fixpoint run (fuel : nat) (s : CPU) : CPU * option exn :=
  match fuel with
  | O => (s, None)
  | S fuel' =>
      match run_step s with
      | (s1, Ok _) => run fuel' s1
      | (s1, Raise e) => (s1, Some e)
      end
  end.

(** [n] iterations of the loop body, stopping at the first exception. *)
Fixpoint run_steps (n : nat) : M unit :=
  match n with
  | O => pure tt
  | S n' => do _ <- run_step; run_steps n'
  end.

(** The exit status of the interpreter when exception [e] reaches the top
    level: the argument of [sys.exit] (0 when it has none), and 1 after the
    traceback of any other exception. *)
Definition exit_status (e : exn) : Z :=
  match e with
  | SystemExit None => 0
  | SystemExit (Some n) => n
  | _ => 1
  end.

(** ** The loader *)

(** A Python string is a sequence of Unicode code points. *)
Definition text : Type := list Z.

(** The code points of an ASCII literal. *)
Fixpoint text_of (s : string) : text :=
  match s with
  | EmptyString => []
  | String c r => Z.of_nat (nat_of_ascii c) :: text_of r
  end.

(** [str.isspace] on one character, which is what [str.strip()] removes:
    tab to carriage return (9..13), the separators 28..31, the space, and
    the Unicode white space U+0085, U+00A0, U+1680, U+2000..U+200A, U+2028,
    U+2029, U+202F, U+205F and U+3000. *)
Definition isspace (ch : Z) : bool :=
  ((9 <=? ch) && (ch <=? 13)) || ((28 <=? ch) && (ch <=? 32)) ||
  (ch =? 133) || (ch =? 160) || (ch =? 5760) ||
  ((8192 <=? ch) && (ch <=? 8202)) || (ch =? 8232) || (ch =? 8233) ||
  (ch =? 8239) || (ch =? 8287) || (ch =? 12288).

Fixpoint lstrip (s : text) : text :=
  match s with
  | [] => []
  | ch :: r => if isspace ch then lstrip r else s
  end.

Fixpoint rstrip (s : text) : text :=
  match s with
  | [] => []
  | ch :: r =>
      match rstrip r with
      | [] => if isspace ch then [] else [ch]
      | r' => ch :: r'
      end
  end.

Definition strip (s : text) : text := rstrip (lstrip s).

(** [s.split("#")[0]]: the text before the first [#] (code point 35). *)
Fixpoint split_hash_0 (s : text) : text :=
  match s with
  | [] => []
  | ch :: r => if ch =? 35 then [] else ch :: split_hash_0 r
  end.

(** [value == ""] *)
Definition is_empty (value : text) : bool :=
  match value with
  | [] => true
  | _ :: _ => false
  end.

(** The decimal digit values of the characters from U+0080 on in the
    interpreter's Unicode database.  The table differs between Python
    versions, so it is an input of the loader. *)
Definition decimal_table : Type := Z -> option Z.

Definition unicode_decimal (decimal : decimal_table) (ch : Z) : option Z :=
  if ch <? 128 then None
  else match decimal ch with
       | Some d => if (0 <=? d) && (d <=? 9) then Some d else None
       | None => None
       end.

(** The first step of [int(value, 2)] on a string: characters below 127 are
    kept, other white space becomes a space, other decimal digits become
    the ASCII digit of their value, and the first character that is
    neither becomes [?] and ends the text. *)
Fixpoint to_ascii (decimal : decimal_table) (value : text) : string :=
  match value with
  | [] => EmptyString
  | ch :: rest =>
      if ch <? 127 then String (ascii_of_nat (Z.to_nat ch)) (to_ascii decimal rest)
      else if isspace ch then String " " (to_ascii decimal rest)
      else
        match unicode_decimal decimal ch with
        | Some d => String (ascii_of_nat (48 + Z.to_nat d)) (to_ascii decimal rest)
        | None => String "?" EmptyString
        end
  end.

(** The white space the number parser skips on both sides: tab to carriage
    return and the space. *)
Definition c_isspace (c : ascii) : bool :=
  let n := nat_of_ascii c in
  ((9 <=? n)%nat && (n <=? 13)%nat) || (n =? 32)%nat.

Fixpoint skip_space (s : string) : string :=
  match s with
  | EmptyString => EmptyString
  | String c r => if c_isspace c then skip_space r else s
  end.

Fixpoint only_space (s : string) : bool :=
  match s with
  | EmptyString => true
  | String c r => c_isspace c && only_space r
  end.

(** The digits of a base 2 number: [0] and [1], with single underscores
    allowed between two digits only, and nothing but white space behind
    them.  [prev_digit] tells whether the character just read was a
    digit. *)
Fixpoint int2_digits (s : string) (acc : Z) (prev_digit : bool) : option Z :=
  match s with
  | EmptyString => if prev_digit then Some acc else None
  | String c r =>
      if Ascii.eqb c "_" then
        if prev_digit then int2_digits r acc false else None
      else if Ascii.eqb c "0" then int2_digits r (2 * acc) true
      else if Ascii.eqb c "1" then int2_digits r (2 * acc + 1) true
      else if prev_digit && only_space s then Some acc
      else None
  end.

(** After the sign: an optional [0b] or [0B] prefix, after which one
    underscore may come before the first digit. *)
Definition int2_unsigned (s : string) : option Z :=
  match s with
  | String "0" (String p r) =>
      if Ascii.eqb p "b" || Ascii.eqb p "B" then
        match r with
        | String "_" r' => int2_digits r' 0 false
        | _ => int2_digits r 0 false
        end
      else int2_digits s 0 false
  | _ => int2_digits s 0 false
  end.

(** The number parser on ASCII text, base 2; [None] is [ValueError]. *)
Definition int2 (s : string) : option Z :=
  match skip_space s with
  | String "+" r => int2_unsigned r
  | String "-" r => option_map Z.opp (int2_unsigned r)
  | s' => int2_unsigned s'
  end.

(** [int(value, 2)] *)
Definition int_base2 (decimal : decimal_table) (value : text) : option Z :=
  int2 (to_ascii decimal value).

(** What [open(filename)] and the iteration over the file do: [open]
    raises, or the file yields its lines and then ends or raises (a read or
    decoding error). *)
Inductive file : Type :=
| OpenRaises (e : exn)
| Lines (lines : list text) (failure : option exn).

Definition filesystem : Type := string -> file.

Definition open (fs : filesystem) (filename : string)
  : M (list text * option exn) :=
  match fs filename with
  | OpenRaises e => raise e
  | Lines lines failure => pure (lines, failure)
  end.

(** The body of [for instruction in program:]; [address] is the loop's
    counter and [failure] what the file does after its last line. *)
Fixpoint load_lines (decimal : decimal_table) (program : list text)
  (failure : option exn) (address : Z) : M unit :=
  match program with
  | [] =>
      match failure with
      | Some e => raise e
      | None => pure tt
      end
  | instruction :: rest =>
      let comment_split_0 := split_hash_0 (strip instruction) in
      let value := strip comment_split_0 in
      if is_empty value then load_lines decimal rest failure address
      else
        match int_base2 decimal value with
        | None => raise ValueError
        | Some num =>
            do _ <- store_ram address num;
            load_lines decimal rest failure (address + 1)
        end
  end.

(** [load]; [argv] is [sys.argv], the script name first. *)
Definition load (decimal : decimal_table) (argv : list string)
  (fs : filesystem) : M unit :=
  if negb (length argv =? 2)%nat then
    do _ <- print (OStr "ERROR: Must have file name");
    raise (SystemExit (Some 1))
  else
    let filename := nth 1 argv EmptyString in
    try_except_FileNotFoundError
      (let address := 0 in
       do program <- open fs filename;
       load_lines decimal (fst program) (snd program) address)
      (do _ <- print (OStr "File not found");
       raise (SystemExit (Some 2))).

(** Modelled from the spec: the entry script is not part of cpu.py; the spec
    has it construct the machine, load the image once and then execute. *)
Definition ls8 (decimal : decimal_table) (argv : list string)
  (fs : filesystem) (fuel : nat) : CPU * option exn :=
  match load decimal argv fs init with
  | (s, Ok _) => run fuel s
  | (s, Raise e) => (s, Some e)
  end.

(** ** Vocabulary of the statements *)

(** The subscripts a Python list of length [n] accepts. *)
Definition valid_index (n : nat) (i : Z) : Prop :=
  - Z.of_nat n <= i < Z.of_nat n.

(** The shape the constructor gives the two arrays; no method changes a
    length. *)
Definition wf (s : CPU) : Prop :=
  length (ram s) = 256%nat /\ length (reg s) = 8%nat.

(** The object right after a successful fetch of operands [a] and [b]. *)
Definition latched (a b : Z) (s : CPU) : CPU :=
  mkCPU (ram s) (reg s) (Some a) (Some b) (PC s) (Some (PC s + 2)) (Some b)
        (FL s) (stdout s).

(** Relations between the state before and after a method. *)
Definition same_PC (s s' : CPU) : Prop := PC s' = PC s.
Definition same_shape (s s' : CPU) : Prop :=
  length (ram s') = length (ram s) /\ length (reg s') = length (reg s).
Definition same_stdout (s s' : CPU) : Prop := stdout s' = stdout s.

Definition preserves {A} (P : CPU -> CPU -> Prop) (m : M A) : Prop :=
  forall s s' r, m s = (s', r) -> P s s'.

(** The opcode of each instruction name: [binary_op] read backwards. *)
Definition opcode (name : mnemonic) : Z :=
  match name with
  | HLT => 1 | LDI => 130 | PRN => 71 | PUSH => 69 | POP => 70
  | CALL => 80 | RET => 17 | JMP => 84 | JEQ => 85 | JNE => 86
  end.

(** Every opcode of the two tables. *)
Definition table_opcodes : list Z :=
  map math_op [ADD; SUB; MUL; CMP] ++
  map opcode [HLT; LDI; PRN; PUSH; POP; CALL; RET; JMP; JEQ; JNE].

(** The value CMP writes to the flags: Equal is bit 0, Greater-than bit 1,
    Less-than bit 2. *)
Definition cmp_flag (valueA valueB : Z) : Z :=
  if valueA =? valueB then 1        (* 0b00000001 *)
  else if valueA <? valueB then 4   (* 0b00000100 *)
  else 2.                           (* 0b00000010 *)

(** The stack between a CALL and its RET: state [s2] has the stack pointer
    where state [s1] had it, and the cell it designates still holds what it
    held in [s1]. *)
Definition stack_balanced (s1 s2 : CPU) : Prop :=
  exists sp,
    getitem (reg s1) SP = Some sp /\ getitem (reg s2) SP = Some sp /\
    getitem (ram s2) sp = getitem (ram s1) sp.

(** The lines of an image that [load] keeps, comments and blanks removed. *)
Definition clean (instruction : text) : text :=
  strip (split_hash_0 (strip instruction)).

Definition retained (program : list text) : list text :=
  List.filter (fun value => negb (is_empty value)) (map clean program).

(** The loop of [load] seen from the retained lines: [vals] are their
    readings by [int(value, 2)], stored from [address] on; [failure] is what
    the file does after its last line. *)
Fixpoint store_all (vals : list (option Z)) (failure : option exn)
  (address : Z) : M unit :=
  match vals with
  | [] =>
      match failure with
      | Some e => raise e
      | None => pure tt
      end
  | None :: _ => raise ValueError
  | Some num :: rest =>
      do _ <- store_ram address num;
      store_all rest failure (address + 1)
  end.

(** The lines [int(value, 2)] accepts. *)
Definition binary_numeral (decimal : decimal_table) (value : text) : Prop :=
  int_base2 decimal value <> None.

(** The plain numerals of an image: the digits [0] (code point 48) and [1]
    (code point 49) only; [bits_value] is the number they write, the most
    significant digit first, continuing from [acc]. *)
Definition is_bit (ch : Z) : Prop := ch = 48 \/ ch = 49.

Definition bits_value (value : text) (acc : Z) : Z :=
  fold_left (fun a ch => 2 * a + (ch - 48)) value acc.

(** [ram] after the values [nums] were stored from address 0 on. *)
Definition image (nums : list Z) (cells : list Z) : list Z :=
  nums ++ drop (length nums) cells.

(** ** Concrete machines and images used in the examples *)

(** A file system with one file, which reads without error. *)
Definition one_file (path : string) (program : list text) : filesystem :=
  fun p => if String.eqb p path then Lines program None
           else OpenRaises FileNotFoundError.

(** A file system in which the path names a directory. *)
Definition a_directory (path : string) : filesystem :=
  fun p => if String.eqb p path then OpenRaises (OSError "IsADirectoryError")
           else OpenRaises FileNotFoundError.

(** Two of the digit ranges of the Unicode database: ARABIC-INDIC DIGIT
    ZERO..NINE (U+0660..U+0669) and FULLWIDTH DIGIT ZERO..NINE
    (U+FF10..U+FF19). *)
Definition two_digit_ranges : decimal_table :=
  fun ch =>
    if (1632 <=? ch) && (ch <=? 1641) then Some (ch - 1632)
    else if (65296 <=? ch) && (ch <=? 65305) then Some (ch - 65296)
    else None.

(** An image of 257 lines, each a valid numeral. *)
Definition long_image : list text := repeat (text_of "0") 257.

(** An image whose second retained line is not a binary numeral. *)
Definition bad_image : list text :=
  map text_of ["10000010 # LDI R0,8"; ""; "R0"; "00001000"]%string.

(** The lines NO-BREAK SPACE 1 0 1, FULLWIDTH DIGIT ONE, and ARABIC-INDIC
    DIGIT ONE ZERO. *)
Definition unicode_image : list text :=
  [[160; 49; 48; 49]; [65297]; [1633; 1632]].

(** A machine with the given first memory cells (the rest zero), register
    file, latched operands, program counter and flags. *)
Definition machine (cells regs : list Z) (a b : option Z) (pc fl : Z) : CPU :=
  mkCPU (image cells (replicate 256 0)) regs a b pc None None fl [].

(** R0 = 42, SP = 0xF4, operand register R0 latched. *)
Definition push_demo : CPU :=
  machine [] [42; 0; 0; 0; 0; 0; 0; 244] (Some 0) (Some 0) 0 0.

(** The stack pointer at -256, the lowest subscript the memory accepts. *)
Definition low_stack_demo : CPU :=
  machine [] [42; 0; 0; 0; 0; 0; 0; -256] (Some 0) (Some 0) 0 0.

(** The stack pointer at 0: the next push goes to the last cell. *)
Definition empty_stack_demo : CPU :=
  machine [] [42; 0; 0; 0; 0; 0; 0; 0] (Some 0) (Some 0) 0 0.

(** R0 = 200, R1 = 100, R2 = 3, R3 = 9; the last fetch latched operands
    0 and 1. *)
Definition alu_demo : CPU :=
  machine [] [200; 100; 3; 9; 0; 0; 0; 244] (Some 0) (Some 1) 0 0.

(** R0 = R1 = 5, R2 = 3, R3 = 9, all flag bits set; the last fetch latched
    operands 0 and 1. *)
Definition cmp_demo : CPU :=
  machine [] [5; 5; 3; 9; 0; 0; 0; 244] (Some 0) (Some 1) 0 255.

(** LDI R0,8; PRN R0; HLT, about to execute the LDI. *)
Definition ldi_demo : CPU :=
  machine [130; 0; 8; 71; 0; 1] [0; 0; 0; 0; 0; 0; 0; 244] None None 0 0.


(** Opcode 0 (NOP in the LS-8 instruction set). *)
Definition nop_demo : CPU :=
  machine [0; 0; 0] [0; 0; 0; 0; 0; 0; 0; 244] None None 0 0.

(** JEQ R2 at address 0 with R2 = 19, after a comparison found equality. *)
Definition jeq_demo : CPU :=
  machine [85; 2; 0] [0; 0; 19; 0; 0; 0; 0; 244] None None 0 1.

(** 0: LDI R1,6   3: CALL R1   5: HLT   6: PUSH R0   8: POP R0   10: RET,
    about to execute the CALL. *)
Definition call_demo : CPU :=
  machine [130; 1; 6; 80; 1; 1; 69; 0; 70; 0; 17]
          [42; 6; 0; 0; 0; 0; 0; 244] None None 3 0.

(** * Properties *)

(** ** Sanity checks of the model on concrete inputs *)

Example int2_samples :
  map int2 ["10000010"; "0b00001000"; "-101"; "1_0"; "0b_1"; "0B11"; "+1"; "0";
            " 11 "; "102"; "1 0"; "_1"; "1_"; "1__0"; "0b"; "0b__1"; "-"; "- 1";
            "0x1"; "LDI"]%string
  = [Some 130; Some 8; Some (-5); Some 2; Some 1; Some 3; Some 1; Some 0;
     Some 3; None; None; None; None; None; None; None; None; None;
     None; None].
Proof. reflexivity. Qed.

Example clean_samples :
  map clean
      (map text_of ["  10000010 # LDI R0,8  "; "# comment only"; "   ";
                    "01000111#PRN"]%string)
  = map text_of ["10000010"; ""; ""; "01000111"]%string.
Proof. reflexivity. Qed.

(** Lines outside ASCII: white space and digits of other scripts count. *)
Example unicode_samples :
  map (fun l => int_base2 two_digit_ranges (clean l)) unicode_image
  = [Some 5; Some 1; Some 2].
Proof. reflexivity. Qed.

(** The end-to-end image of the specification: LDI R0,8; PRN R0; HLT. *)
Example ls8_print8 :
  let fs := one_file "print8.ls8"
              (map text_of
                 ["10000010 # LDI R0,8"; "0b00000000"; "0b00001000";
                  "01000111 # PRN R0"; "00000000"; "00000001 # HLT"]%string) in
  let r := ls8 two_digit_ranges ["ls8.py"; "print8.ls8"]%string fs 10 in
  snd r = Some (SystemExit None) /\ exit_status (SystemExit None) = 0 /\
  stdout (fst r) = [OInt 8] /\ getitem (reg (fst r)) 0 = Some 8.
Proof. vm_compute. auto. Qed.

(** ** Subscripts *)

Lemma py_index_valid n i :
  valid_index n i -> exists k, py_index n i = Some k /\ (k < n)%nat.
Proof.
  unfold valid_index, py_index. intros Hv.
  destruct (Z.leb_spec 0 i); destruct (Z.ltb_spec i (Z.of_nat n));
    destruct (Z.leb_spec (- Z.of_nat n) i); destruct (Z.ltb_spec i 0);
    cbn; try lia; eexists; (split; [reflexivity | lia]).
Qed.

Lemma py_index_Some n i k :
  py_index n i = Some k -> valid_index n i /\ (k < n)%nat.
Proof.
  unfold valid_index, py_index.
  destruct (Z.leb_spec 0 i); destruct (Z.ltb_spec i (Z.of_nat n));
    destruct (Z.leb_spec (- Z.of_nat n) i); destruct (Z.ltb_spec i 0);
    cbn; intros [= <-]; lia.
Qed.

Lemma py_index_invalid n i : ~ valid_index n i -> py_index n i = None.
Proof.
  intros Hn. destruct (py_index n i) as [k|] eqn:E; [|reflexivity].
  apply py_index_Some in E. tauto.
Qed.

Lemma getitem_valid l i : valid_index (length l) i -> is_Some (getitem l i).
Proof.
  intros Hv. destruct (py_index_valid _ _ Hv) as (k & Hk & Hlt).
  unfold getitem. rewrite Hk. apply lookup_lt_is_Some. exact Hlt.
Qed.

Lemma getitem_invalid l i : ~ valid_index (length l) i -> getitem l i = None.
Proof. intros Hn. unfold getitem. now rewrite py_index_invalid. Qed.

Lemma getitem_Some l i v :
  getitem l i = Some v ->
  exists k, py_index (length l) i = Some k /\ l !! k = Some v.
Proof.
  unfold getitem. destruct (py_index (length l) i) as [k|]; [|discriminate].
  intros H. exists k. auto.
Qed.

Lemma getitem_Some_valid l i v : getitem l i = Some v -> valid_index (length l) i.
Proof.
  intros H. destruct (getitem_Some _ _ _ H) as (k & Hk & _).
  now apply py_index_Some in Hk.
Qed.

Lemma setitem_valid l i v : valid_index (length l) i -> is_Some (setitem l i v).
Proof.
  intros Hv. destruct (py_index_valid _ _ Hv) as (k & Hk & _).
  unfold setitem. rewrite Hk. eauto.
Qed.

Lemma setitem_invalid l i v : ~ valid_index (length l) i -> setitem l i v = None.
Proof. intros Hn. unfold setitem. now rewrite py_index_invalid. Qed.

Lemma setitem_length l i v l' : setitem l i v = Some l' -> length l' = length l.
Proof.
  unfold setitem. destruct (py_index (length l) i); intros [= <-].
  apply length_insert.
Qed.

Lemma getitem_setitem_eq l i v l' :
  setitem l i v = Some l' -> getitem l' i = Some v.
Proof.
  intros H. pose proof (setitem_length _ _ _ _ H) as Hlen.
  unfold setitem in H. unfold getitem. rewrite Hlen.
  destruct (py_index (length l) i) as [k|] eqn:E; [|discriminate].
  injection H as <-. apply py_index_Some in E as [_ Hlt].
  apply list_lookup_insert_eq. exact Hlt.
Qed.

Lemma getitem_setitem_ne l i j v l' :
  setitem l i v = Some l' ->
  py_index (length l) j <> py_index (length l) i ->
  getitem l' j = getitem l j.
Proof.
  intros H Hne. pose proof (setitem_length _ _ _ _ H) as Hlen.
  unfold setitem in H. unfold getitem. rewrite Hlen.
  destruct (py_index (length l) i) as [ki|]; [|discriminate].
  injection H as <-.
  destruct (py_index (length l) j) as [kj|]; [|reflexivity].
  apply list_lookup_insert_ne. congruence.
Qed.

(** Storing the value a cell already holds changes nothing. *)
Lemma setitem_getitem_id l i v : getitem l i = Some v -> setitem l i v = Some l.
Proof.
  unfold getitem, setitem.
  destruct (py_index (length l) i) as [k|]; [|discriminate].
  intros H. f_equal. apply list_insert_id. exact H.
Qed.

(** A second store to the same subscript overwrites the first. *)
Lemma setitem_setitem_eq l i v w l1 :
  setitem l i v = Some l1 -> setitem l1 i w = setitem l i w.
Proof.
  intros H. pose proof (setitem_length _ _ _ _ H) as Hlen.
  unfold setitem in *. rewrite Hlen.
  destruct (py_index (length l) i) as [k|]; [|discriminate].
  injection H as <-. f_equal. apply list_insert_insert_eq.
Qed.

(** ** Running a method body *)

Ltac msimpl :=
  unfold print;
  unfold bind, pure, raise, read, write, load_reg, load_ram, store_reg,
    store_ram;
  cbn [reg ram operand_a operand_b PC MAR MDR FL stdout
       set_ram set_reg set_operand_a set_operand_b set_PC set_MAR set_MDR
       set_FL add_stdout fst snd].

(** Continue a body with the facts at hand about subscripts and operands. *)
Ltac mrun :=
  repeat (msimpl;
          match goal with
          | H : getitem _ _ = Some _ |- _ => rewrite H
          | H : setitem _ _ _ = Some _ |- _ => rewrite H
          | H : operand_a _ = Some _ |- _ => rewrite H
          | H : operand_b _ = Some _ |- _ => rewrite H
          | H : getitem _ _ = None |- _ => rewrite H
          | H : setitem _ _ _ = None |- _ => rewrite H
          end);
  msimpl.

Lemma bind_ok {A B} (m : M A) (k : A -> M B) s s1 a :
  m s = (s1, Ok a) -> bind m k s = k a s1.
Proof. unfold bind. now intros ->. Qed.

Lemma bind_raise {A B} (m : M A) (k : A -> M B) s s1 e :
  m s = (s1, Raise e) -> bind m k s = (s1, Raise e).
Proof. unfold bind. now intros ->. Qed.

Lemma bind_inv_ok {A B} (m : M A) (k : A -> M B) s s' b :
  bind m k s = (s', Ok b) ->
  exists s1 a, m s = (s1, Ok a) /\ k a s1 = (s', Ok b).
Proof.
  unfold bind. destruct (m s) as [s1 [a|e]]; [|discriminate].
  intros H. exists s1, a. auto.
Qed.

(** ** What the stack instructions do when every subscript is in range *)

Lemma push_ok s sp reg' a value ram' :
  getitem (reg s) SP = Some sp ->
  setitem (reg s) SP (sp - 1) = Some reg' ->
  operand_a s = Some a ->
  getitem reg' a = Some value ->
  setitem (ram s) (sp - 1) value = Some ram' ->
  push s = (set_ram ram' (set_reg reg' s), Ok tt).
Proof.
  intros Hsp Hset Ha Hval Hram.
  pose proof (getitem_setitem_eq _ _ _ _ Hset) as Hsp'.
  unfold push. mrun. reflexivity.
Qed.

Lemma pop_ok s sp value register reg' reg'' sp' :
  getitem (reg s) SP = Some sp ->
  getitem (ram s) sp = Some value ->
  operand_a s = Some register ->
  setitem (reg s) register value = Some reg' ->
  getitem reg' SP = Some sp' ->
  setitem reg' SP (sp' + 1) = Some reg'' ->
  pop s = (set_reg reg'' s, Ok tt).
Proof.
  intros Hsp Hval Ha Hset Hsp' Hset'.
  unfold pop. mrun. reflexivity.
Qed.

Lemma call_ok s sp reg' ram' register address :
  getitem (reg s) SP = Some sp ->
  setitem (reg s) SP (sp - 1) = Some reg' ->
  setitem (ram s) (sp - 1) (PC s + 2) = Some ram' ->
  operand_a s = Some register ->
  getitem reg' register = Some address ->
  call s = (set_PC address (set_ram ram' (set_reg reg' s)), Ok tt).
Proof.
  intros Hsp Hset Hram Ha Haddr.
  pose proof (getitem_setitem_eq _ _ _ _ Hset) as Hsp'.
  unfold call. mrun. reflexivity.
Qed.

Lemma ret_ok s sp address reg' :
  getitem (reg s) SP = Some sp ->
  getitem (ram s) sp = Some address ->
  setitem (reg s) SP (sp + 1) = Some reg' ->
  ret s = (set_reg reg' (set_PC address s), Ok tt).
Proof.
  intros Hsp Haddr Hset.
  unfold ret. mrun. reflexivity.
Qed.

(** ** The fetch *)

Lemma fetch_ok s ireg a b :
  getitem (ram s) (PC s) = Some ireg ->
  getitem (ram s) (PC s + 1) = Some a ->
  getitem (ram s) (PC s + 2) = Some b ->
  fetch s = (latched a b s, Ok ireg).
Proof.
  intros H0 H1 H2. unfold fetch, ram_read.
  mrun. reflexivity.
Qed.

Lemma fetch_inv s s0 ireg :
  fetch s = (s0, Ok ireg) ->
  exists a b,
    getitem (ram s) (PC s) = Some ireg /\
    getitem (ram s) (PC s + 1) = Some a /\
    getitem (ram s) (PC s + 2) = Some b /\
    s0 = latched a b s.
Proof.
  intros H.
  destruct (getitem (ram s) (PC s)) as [i|] eqn:H0;
    destruct (getitem (ram s) (PC s + 1)) as [a|] eqn:H1;
    destruct (getitem (ram s) (PC s + 2)) as [b|] eqn:H2;
    revert H; unfold fetch, ram_read; mrun; intros H; try discriminate H.
  injection H as <- <-. exists a, b. auto.
Qed.

(** ** PUSH and POP *)

(** [push] succeeds, and a [pop] with the same operand on any machine that
    has the memory and registers [push] left puts the register file back. *)
Lemma pop_undoes_push s a v sp :
  wf s ->
  operand_a s = Some a ->
  getitem (reg s) a = Some v ->
  getitem (reg s) SP = Some sp ->
  valid_index 256 (sp - 1) ->
  exists s1,
    push s = (s1, Ok tt) /\ operand_a s1 = Some a /\ PC s1 = PC s /\
    forall t,
      ram t = ram s1 -> reg t = reg s1 -> operand_a t = Some a ->
      pop t = (set_reg (reg s) t, Ok tt).
Proof.
  intros [Hram Hreg] Ha Hv Hsp Hvalid.
  destruct (setitem_valid (reg s) SP (sp - 1)) as [reg' Hset].
  { eapply getitem_Some_valid; eassumption. }
  destruct (getitem_valid reg' a) as [value Hvalue].
  { rewrite (setitem_length _ _ _ _ Hset). eapply getitem_Some_valid; eassumption. }
  destruct (setitem_valid (ram s) (sp - 1) value) as [ram' Hstore].
  { now rewrite Hram. }
  pose proof (getitem_setitem_eq _ _ _ _ Hset) as Hsp'.
  exists (set_ram ram' (set_reg reg' s)).
  split; [eapply push_ok; eassumption|].
  split; [exact Ha|]. split; [reflexivity|].
  intros t Hramt Hregt Hat. cbn [ram reg set_ram set_reg] in Hramt, Hregt.
  eapply pop_ok with (sp := sp - 1) (value := value) (reg' := reg') (sp' := sp - 1);
    rewrite ?Hramt, ?Hregt.
  - exact Hsp'.
  - eapply getitem_setitem_eq; eassumption.
  - exact Hat.
  - apply setitem_getitem_id. exact Hvalue.
  - exact Hsp'.
  - rewrite (setitem_setitem_eq _ _ _ _ _ Hset).
    replace (sp - 1 + 1) with sp by lia.
    apply setitem_getitem_id. exact Hsp.
Qed.

(** C8: for every machine whose arrays have the constructor's lengths, every
    valid register subscript [a] and every stack pointer whose decrement is a
    valid memory subscript, [push] followed by [pop] on the same register
    returns normally, the register holds the value it held before the PUSH,
    the stack pointer (register 7) is back at its value before the PUSH, and
    in fact the whole register file is as before. *)
Theorem push_pop_round_trip s a v sp :
  wf s ->
  operand_a s = Some a ->
  getitem (reg s) a = Some v ->
  getitem (reg s) SP = Some sp ->
  valid_index 256 (sp - 1) ->
  exists s1 s2,
    push s = (s1, Ok tt) /\ pop s1 = (s2, Ok tt) /\
    getitem (reg s2) a = Some v /\
    getitem (reg s2) SP = Some sp /\
    reg s2 = reg s.
Proof.
  intros Hwf Ha Hv Hsp Hvalid.
  destruct (pop_undoes_push s a v sp Hwf Ha Hv Hsp Hvalid)
    as (s1 & Hpush & Ha1 & _ & Hpop).
  exists s1, (set_reg (reg s) s1).
  split; [exact Hpush|].
  split; [apply Hpop; auto|].
  cbn [reg set_reg]. auto.
Qed.

Lemma push_pop_round_trip_witness :
  exists s1 s2,
    push push_demo = (s1, Ok tt) /\ pop s1 = (s2, Ok tt) /\
    getitem (reg s2) 0 = Some 42 /\
    getitem (reg s2) SP = Some 244 /\
    reg s2 = reg push_demo.
Proof.
  apply (push_pop_round_trip push_demo 0 42 244).
  - split; reflexivity.
  - reflexivity.
  - reflexivity.
  - reflexivity.
  - unfold valid_index. lia.
Defined.

(** ** Stack subscripts *)

Lemma push_raise s sp reg' a value :
  getitem (reg s) SP = Some sp ->
  setitem (reg s) SP (sp - 1) = Some reg' ->
  operand_a s = Some a ->
  getitem reg' a = Some value ->
  setitem (ram s) (sp - 1) value = None ->
  push s = (set_reg reg' s, Raise IndexError).
Proof.
  intros Hsp Hset Ha Hval Hram.
  pose proof (getitem_setitem_eq _ _ _ _ Hset) as Hsp'.
  unfold push. mrun. reflexivity.
Qed.

Lemma call_raise s sp reg' :
  getitem (reg s) SP = Some sp ->
  setitem (reg s) SP (sp - 1) = Some reg' ->
  setitem (ram s) (sp - 1) (PC s + 2) = None ->
  call s = (set_reg reg' s, Raise IndexError).
Proof.
  intros Hsp Hset Hram.
  pose proof (getitem_setitem_eq _ _ _ _ Hset) as Hsp'.
  unfold call. mrun. reflexivity.
Qed.

(** A negative subscript [-k] of the 256-cell memory is cell [256 - k]. *)
Lemma setitem_minus_1 l v l' :
  length l = 256%nat -> setitem l (-1) v = Some l' -> l' !! 255%nat = Some v.
Proof.
  intros Hlen. unfold setitem. rewrite Hlen. cbn. intros [= <-].
  apply list_lookup_insert_eq. lia.
Qed.

Section StackSubscripts.
Variables (s : CPU) (a sp : Z).
Hypothesis Hwf : wf s.
Hypothesis Ha : operand_a s = Some a.
Hypothesis Hva : valid_index 8 a.
Hypothesis Hsp : getitem (reg s) SP = Some sp.

Lemma decrement_SP : exists reg', setitem (reg s) SP (sp - 1) = Some reg'.
Proof.
  destruct (setitem_valid (reg s) SP (sp - 1)) as [reg' H]; eauto.
  eapply getitem_Some_valid; eassumption.
Qed.

Lemma operand_register reg' v :
  setitem (reg s) SP v = Some reg' -> exists value, getitem reg' a = Some value.
Proof.
  intros Hset. destruct (getitem_valid reg' a) as [value H]; eauto.
  rewrite (setitem_length _ _ _ _ Hset). destruct Hwf as [_ ->]. exact Hva.
Qed.

Lemma push_in_range :
  valid_index 256 (sp - 1) ->
  exists s' value,
    push s = (s', Ok tt) /\ setitem (reg s) SP (sp - 1) = Some (reg s') /\
    getitem (reg s') a = Some value /\ getitem (ram s') (sp - 1) = Some value /\
    (sp = 0 -> ram s' !! 255%nat = Some value).
Proof.
  intros Hv. destruct decrement_SP as [reg' Hset].
  destruct (operand_register _ _ Hset) as [value Hvalue].
  destruct (setitem_valid (ram s) (sp - 1) value) as [ram' Hstore].
  { destruct Hwf as [-> _]. exact Hv. }
  exists (set_ram ram' (set_reg reg' s)), value.
  split; [eapply push_ok; eassumption|]. cbn.
  split; [exact Hset|].
  split; [exact Hvalue|].
  split; [eapply getitem_setitem_eq; eassumption|].
  intros ->. eapply setitem_minus_1; [apply Hwf | exact Hstore].
Qed.

Lemma call_in_range :
  valid_index 256 (sp - 1) ->
  exists s' address,
    call s = (s', Ok tt) /\ setitem (reg s) SP (sp - 1) = Some (reg s') /\
    getitem (reg s') a = Some address /\ PC s' = address /\
    getitem (ram s') (sp - 1) = Some (PC s + 2) /\
    (sp = 0 -> ram s' !! 255%nat = Some (PC s + 2)).
Proof.
  intros Hv. destruct decrement_SP as [reg' Hset].
  destruct (operand_register _ _ Hset) as [address Haddr].
  destruct (setitem_valid (ram s) (sp - 1) (PC s + 2)) as [ram' Hstore].
  { destruct Hwf as [-> _]. exact Hv. }
  exists (set_PC address (set_ram ram' (set_reg reg' s))), address.
  split; [eapply call_ok; eassumption|]. cbn.
  split; [exact Hset|].
  split; [exact Haddr|]. split; [reflexivity|].
  split; [eapply getitem_setitem_eq; eassumption|].
  intros ->. eapply setitem_minus_1; [apply Hwf | exact Hstore].
Qed.

Lemma push_call_out_of_range :
  ~ valid_index 256 (sp - 1) ->
  snd (push s) = Raise IndexError /\ snd (call s) = Raise IndexError.
Proof.
  intros Hn. destruct decrement_SP as [reg' Hset].
  destruct (operand_register _ _ Hset) as [value Hvalue].
  assert (Hnone : forall v, setitem (ram s) (sp - 1) v = None).
  { intros v. apply setitem_invalid. destruct Hwf as [-> _]. exact Hn. }
  split.
  - erewrite push_raise; eauto.
  - erewrite call_raise; eauto.
Qed.

Lemma pop_in_range :
  valid_index 256 sp -> exists s', pop s = (s', Ok tt).
Proof.
  intros Hv. destruct (getitem_valid (ram s) sp) as [value Hvalue].
  { destruct Hwf as [-> _]. exact Hv. }
  destruct (setitem_valid (reg s) a value) as [reg' Hset].
  { destruct Hwf as [_ ->]. exact Hva. }
  destruct (getitem_valid reg' SP) as [sp' Hsp'].
  { rewrite (setitem_length _ _ _ _ Hset).
    eapply getitem_Some_valid; eassumption. }
  destruct (setitem_valid reg' SP (sp' + 1)) as [reg'' Hset'].
  { eapply getitem_Some_valid; eassumption. }
  eexists. eapply pop_ok; eassumption.
Qed.

Lemma ret_in_range :
  valid_index 256 sp -> exists s', ret s = (s', Ok tt).
Proof.
  intros Hv. destruct (getitem_valid (ram s) sp) as [address Haddr].
  { destruct Hwf as [-> _]. exact Hv. }
  destruct (setitem_valid (reg s) SP (sp + 1)) as [reg' Hset].
  { eapply getitem_Some_valid; eassumption. }
  eexists. eapply ret_ok; eassumption.
Qed.
End StackSubscripts.

(** C10, amended: stack accesses subscript memory with the raw stack pointer,
    and Python counts negative subscripts from the end of the 256 cells.
    With the stack pointer at 0, PUSH and CALL leave it at -1 and store the
    pushed value (the operand register's value for PUSH, PC + 2 for CALL) in
    cell 255.  POP and RET subscript with the stack pointer itself and
    return normally for every value in -256..255; PUSH and CALL subscript
    with the decremented pointer and return normally for every value in
    -255..256, and raise IndexError outside that range. *)
Theorem stack_wraps_to_the_end s a sp :
  wf s ->
  operand_a s = Some a ->
  valid_index 8 a ->
  getitem (reg s) SP = Some sp ->
  (sp = 0 ->
   (exists s' value,
       push s = (s', Ok tt) /\ getitem (reg s') SP = Some (-1) /\
       getitem (reg s') a = Some value /\ ram s' !! 255%nat = Some value) /\
   (exists s',
       call s = (s', Ok tt) /\ getitem (reg s') SP = Some (-1) /\
       ram s' !! 255%nat = Some (PC s + 2))) /\
  (-255 <= sp <= 256 ->
   (exists s', push s = (s', Ok tt)) /\ (exists s', call s = (s', Ok tt))) /\
  (-256 <= sp <= 255 ->
   (exists s', pop s = (s', Ok tt)) /\ (exists s', ret s = (s', Ok tt))) /\
  (sp < -255 \/ 256 < sp ->
   snd (push s) = Raise IndexError /\ snd (call s) = Raise IndexError).
Proof.
  intros Hwf Ha Hva Hsp. repeat split.
  - destruct (push_in_range s a sp Hwf Ha Hva Hsp) as (s' & value & H1 & H2 & H3 & _ & H5).
    { unfold valid_index. lia. }
    exists s', value. subst sp. pose proof (getitem_setitem_eq _ _ _ _ H2). auto.
  - destruct (call_in_range s a sp Hwf Ha Hva Hsp) as (s' & addr & H1 & H2 & _ & _ & _ & H5).
    { unfold valid_index. lia. }
    exists s'. subst sp. pose proof (getitem_setitem_eq _ _ _ _ H2). auto.
  - destruct (push_in_range s a sp Hwf Ha Hva Hsp) as (s' & value & H1 & _).
    { unfold valid_index. lia. }
    eauto.
  - destruct (call_in_range s a sp Hwf Ha Hva Hsp) as (s' & addr & H1 & _).
    { unfold valid_index. lia. }
    eauto.
  - apply (pop_in_range s a sp Hwf Ha Hva Hsp). unfold valid_index. lia.
  - apply (ret_in_range s sp Hwf Hsp). unfold valid_index. lia.
  - apply (push_call_out_of_range s a sp Hwf Ha Hva Hsp). unfold valid_index. lia.
  - apply (push_call_out_of_range s a sp Hwf Ha Hva Hsp). unfold valid_index. lia.
Qed.

Lemma stack_wraps_to_the_end_witness :
  (exists s' value,
      push empty_stack_demo = (s', Ok tt) /\ getitem (reg s') SP = Some (-1) /\
      getitem (reg s') 0 = Some value /\ ram s' !! 255%nat = Some value) /\
  (exists s', pop empty_stack_demo = (s', Ok tt)).
Proof.
  assert (Hwf : wf empty_stack_demo) by (split; reflexivity).
  assert (Hva : valid_index 8 0) by (unfold valid_index; lia).
  destruct (stack_wraps_to_the_end empty_stack_demo 0 0 Hwf eq_refl Hva eq_refl)
    as (H0 & _ & Hpop & _).
  split.
  - apply H0. reflexivity.
  - apply Hpop. lia.
Defined.

(** C10 as stated fails at the lower end of its range: with the stack
    pointer at -256, PUSH and CALL decrement it to -257 and the store raises
    IndexError. *)
Lemma push_at_minus_256_raises :
  wf low_stack_demo /\
  getitem (reg low_stack_demo) SP = Some (-256) /\
  -256 <= -256 <= 255 /\
  snd (push low_stack_demo) = Raise IndexError /\
  snd (call low_stack_demo) = Raise IndexError.
Proof. repeat split; try reflexivity; lia. Qed.

(** ** Opcode fields *)

Lemma field_01 x : let f := Z.shiftr (x mod 255) 7 in f = 0 \/ f = 1.
Proof.
  cbv zeta. rewrite Z.shiftr_div_pow2 by lia. change (2 ^ 7) with 128.
  pose proof (Z.mod_pos_bound x 255 ltac:(lia)) as Hb.
  destruct (Z_lt_le_dec (x mod 255) 128) as [Hlt|Hge].
  - left. apply Z.div_small. lia.
  - right. symmetry. apply (Z.div_unique _ 128 1 (x mod 255 - 128)); lia.
Qed.

(** The classification is two-valued: the third branch of [run] is dead. *)
Lemma alu_field_01 ireg : alu_field ireg = 0 \/ alu_field ireg = 1.
Proof. apply field_01. Qed.

Lemma pc_field_01 ireg : pc_field ireg = 0 \/ pc_field ireg = 1.
Proof. apply field_01. Qed.

Lemma binary_op_inv ireg name : binary_op ireg = Some name -> ireg = opcode name.
Proof.
  intros H. destruct ireg as [|p|p]; try discriminate H.
  repeat (destruct p as [p|p|]; cbn in H; try discriminate H);
    injection H as <-; reflexivity.
Qed.

Lemma binary_op_opcode name : binary_op (opcode name) = Some name.
Proof. destruct name; reflexivity. Qed.

(** On every byte below 255 the two modulo-255 tests read bit 5 and bit 4 of
    the opcode; at 255 both read 0. *)
Lemma fields_are_bits ireg :
  0 <= ireg < 255 ->
  alu_field ireg = Z.b2z (Z.testbit ireg 5) /\
  pc_field ireg = Z.b2z (Z.testbit ireg 4).
Proof.
  intros H.
  assert (Hall : forallb (fun n => let i := Z.of_nat n in
                   (alu_field i =? Z.b2z (Z.testbit i 5)) &&
                   (pc_field i =? Z.b2z (Z.testbit i 4))) (seq 0 255) = true)
    by (vm_compute; reflexivity).
  rewrite forallb_forall in Hall.
  specialize (Hall (Z.to_nat ireg)). rewrite Z2Nat.id in Hall by lia.
  cbv zeta in Hall.
  assert (Hin : In (Z.to_nat ireg) (seq 0 255)) by (apply in_seq; lia).
  apply Hall in Hin. apply andb_prop in Hin as [H1 H2].
  split; apply Z.eqb_eq; assumption.
Qed.

Example fields_at_255 : alu_field 255 = 0 /\ pc_field 255 = 0.
Proof. split; reflexivity. Qed.

(** ** What a method leaves unchanged *)

Section Preservation.
Variable P : CPU -> CPU -> Prop.
Hypothesis P_refl : forall s, P s s.
Hypothesis P_trans : forall s1 s2 s3, P s1 s2 -> P s2 s3 -> P s1 s3.

Lemma preserves_pure {A} (a : A) : preserves P (pure a).
Proof. intros s s' r [= <- _]. apply P_refl. Qed.

Lemma preserves_raise {A} e : preserves P (@raise A e).
Proof. intros s s' r [= <- _]. apply P_refl. Qed.

Lemma preserves_read {A} (f : CPU -> A) : preserves P (read f).
Proof. intros s s' r [= <- _]. apply P_refl. Qed.

Lemma preserves_write f : (forall s, P s (f s)) -> preserves P (write f).
Proof. intros Hf s s' r [= <- _]. apply Hf. Qed.

Lemma preserves_load_reg i : preserves P (load_reg i).
Proof.
  intros s s' r. unfold load_reg.
  destruct i as [i|]; [destruct (getitem (reg s) i)|]; intros [= <- _];
    apply P_refl.
Qed.

Lemma preserves_load_ram i : preserves P (load_ram i).
Proof.
  intros s s' r. unfold load_ram.
  destruct (getitem (ram s) i); intros [= <- _]; apply P_refl.
Qed.

Lemma preserves_store_reg i v :
  (forall s l, setitem (reg s) i v = Some l -> P s (set_reg l s)) ->
  preserves P (store_reg (Some i) v).
Proof.
  intros Hf s s' r. unfold store_reg.
  destruct (setitem (reg s) i v) eqn:E; intros [= <- _]; auto.
Qed.

Lemma preserves_store_ram i v :
  (forall s l, setitem (ram s) i v = Some l -> P s (set_ram l s)) ->
  preserves P (store_ram i v).
Proof.
  intros Hf s s' r. unfold store_ram.
  destruct (setitem (ram s) i v) eqn:E; intros [= <- _]; auto.
Qed.

Lemma preserves_bind {A B} (m : M A) (k : A -> M B) :
  preserves P m -> (forall a, preserves P (k a)) -> preserves P (bind m k).
Proof.
  intros Hm Hk s s' r. unfold bind.
  destruct (m s) as [s1 [a|e]] eqn:E.
  - intros H. eapply P_trans; [eapply Hm | eapply Hk]; eassumption.
  - intros [= <- _]. eapply Hm; eassumption.
Qed.

Lemma preserves_if {A} (c : bool) (m1 m2 : M A) :
  preserves P m1 -> preserves P m2 -> preserves P (if c then m1 else m2).
Proof. destruct c; auto. Qed.
End Preservation.

Create HintDb pres discriminated.
#[local] Hint Resolve preserves_pure preserves_raise preserves_read
  preserves_load_reg preserves_load_ram preserves_bind preserves_if : pres.

Lemma same_PC_refl s : same_PC s s.
Proof. reflexivity. Qed.

Lemma same_PC_trans s1 s2 s3 : same_PC s1 s2 -> same_PC s2 s3 -> same_PC s1 s3.
Proof. unfold same_PC. congruence. Qed.

Lemma same_shape_refl s : same_shape s s.
Proof. split; reflexivity. Qed.

Lemma same_shape_trans s1 s2 s3 :
  same_shape s1 s2 -> same_shape s2 s3 -> same_shape s1 s3.
Proof. unfold same_shape. intros [] []. split; congruence. Qed.

#[local] Hint Resolve same_PC_refl same_PC_trans same_shape_refl
  same_shape_trans : pres.

(** Stores into the arrays and prints leave the program counter alone. *)
Lemma store_reg_same_PC i v : preserves same_PC (store_reg i v).
Proof.
  destruct i as [i|].
  - apply preserves_store_reg; reflexivity.
  - apply preserves_raise. apply same_PC_refl.
Qed.

Lemma store_ram_same_PC i v : preserves same_PC (store_ram i v).
Proof. apply preserves_store_ram; reflexivity. Qed.

Lemma print_same_PC o : preserves same_PC (print o).
Proof. apply preserves_write. reflexivity. Qed.

Lemma set_FL_same_PC v : preserves same_PC (write (set_FL v)).
Proof. apply preserves_write. reflexivity. Qed.

#[local] Hint Resolve store_reg_same_PC store_ram_same_PC print_same_PC
  set_FL_same_PC : pres.

(** Walk through a method body, one bind or branch at a time. *)
Ltac pres_step :=
  lazymatch goal with
  | |- preserves _ (bind _ _) =>
      apply preserves_bind;
      [first [exact same_PC_trans | exact same_shape_trans] | | intro; cbv beta]
  | |- preserves _ (if _ then _ else _) => apply preserves_if
  | |- preserves _ (match ?b with Some _ => _ | None => _ end) => destruct b
  | |- _ => solve [auto with pres]
  end.
Ltac pres := repeat pres_step.

Lemma ALU_same_PC op reg_a reg_b : preserves same_PC (ALU op reg_a reg_b).
Proof. unfold ALU. pres. Qed.

Lemma alu_branch_same_PC ireg : preserves same_PC (alu_branch ireg).
Proof. unfold alu_branch. pres. apply ALU_same_PC. Qed.

Lemma ldi_same_PC : preserves same_PC ldi.
Proof. unfold ldi. pres. Qed.

Lemma prn_same_PC : preserves same_PC prn.
Proof. unfold prn. pres. Qed.

Lemma push_same_PC : preserves same_PC push.
Proof. unfold push. pres. Qed.

Lemma pop_same_PC : preserves same_PC pop.
Proof. unfold pop. pres. Qed.

(** ** One iteration of the loop *)

Lemma run_step_fetched s ireg a b :
  getitem (ram s) (PC s) = Some ireg ->
  getitem (ram s) (PC s + 1) = Some a ->
  getitem (ram s) (PC s + 2) = Some b ->
  run_step s =
  (if alu_field ireg =? 1 then do _ <- alu_branch ireg; move_PC ireg
   else if alu_field ireg =? 0 then do _ <- basic_branch ireg; move_PC ireg
   else unrecognized_branch ireg) (latched a b s).
Proof.
  intros H0 H1 H2. unfold run_step.
  erewrite bind_ok by (apply fetch_ok; eassumption). reflexivity.
Qed.

Lemma move_PC_advance ireg s :
  pc_field ireg <> 1 ->
  move_PC ireg s = (set_PC (PC s + (Z.shiftr ireg 6 + 1)) s, Ok tt).
Proof.
  intros H. unfold move_PC. apply Z.eqb_neq in H. rewrite H. reflexivity.
Qed.

Lemma move_PC_stay ireg s : pc_field ireg = 1 -> move_PC ireg s = (s, Ok tt).
Proof. intros H. unfold move_PC. rewrite H. reflexivity. Qed.

(** The same round trip in the loop: an iteration that executes PUSH and,
    when the next two bytes are a POP of the same register, the iteration
    that executes it. *)
Lemma push_pop_iterations s a b v sp :
  wf s ->
  getitem (ram s) (PC s) = Some (opcode PUSH) ->
  getitem (ram s) (PC s + 1) = Some a ->
  getitem (ram s) (PC s + 2) = Some b ->
  getitem (reg s) a = Some v ->
  getitem (reg s) SP = Some sp ->
  valid_index 256 (sp - 1) ->
  exists s1,
    run_step s = (s1, Ok tt) /\ PC s1 = PC s + 2 /\
    forall c,
      getitem (ram s1) (PC s1) = Some (opcode POP) ->
      getitem (ram s1) (PC s1 + 1) = Some a ->
      getitem (ram s1) (PC s1 + 2) = Some c ->
      exists s2,
        run_step s1 = (s2, Ok tt) /\ reg s2 = reg s /\ PC s2 = PC s + 4.
Proof.
  intros Hwf H0 H1 H2 Hv Hsp Hvalid.
  destruct (pop_undoes_push (latched a b s) a v sp Hwf eq_refl Hv Hsp Hvalid)
    as (s1 & Hpush & _ & HPC & Hpop).
  cbn [PC latched] in HPC.
  exists (set_PC (PC s1 + 2) s1). split.
  { rewrite (run_step_fetched _ _ _ _ H0 H1 H2).
    change (alu_field _ =? 1) with false. change (alu_field _ =? 0) with true.
    cbv iota. unfold basic_branch. cbn [binary_op opcode instructions].
    erewrite bind_ok by exact Hpush. apply move_PC_advance. discriminate. }
  split; [cbn; lia|].
  intros c P0 P1 P2.
  exists (set_PC (PC s1 + 2 + 2) (set_reg (reg s) (latched a c (set_PC (PC s1 + 2) s1)))).
  split.
  { rewrite (run_step_fetched _ _ _ _ P0 P1 P2).
    change (alu_field _ =? 1) with false. change (alu_field _ =? 0) with true.
    cbv iota. unfold basic_branch. cbn [binary_op opcode instructions].
    erewrite bind_ok by (apply Hpop; reflexivity).
    apply move_PC_advance. discriminate. }
  split; [reflexivity|]. cbn. lia.
Qed.

(** For the opcodes of the tables the modulo-255 test of [move_PC] is bit 4
    of the opcode, and the shift by 6 is the value of its top two bits. *)
Lemma table_opcode_fields ireg :
  In ireg table_opcodes ->
  0 <= ireg < 256 /\
  Z.shiftr ireg 6 = 2 * Z.b2z (Z.testbit ireg 7) + Z.b2z (Z.testbit ireg 6) /\
  0 <= Z.shiftr ireg 6 <= 2 /\
  pc_field ireg = Z.b2z (Z.testbit ireg 4) /\
  alu_field ireg = Z.b2z (Z.testbit ireg 5).
Proof.
  intros Hin. cbn in Hin.
  repeat (destruct Hin as [<-|Hin]; [vm_compute; intuition discriminate|]).
  contradiction.
Qed.

(** A successful ALU call was one of the four mapped operations. *)
Lemma alu_branch_inv ireg s s1 :
  alu_branch ireg s = (s1, Ok tt) -> In ireg table_opcodes /\ PC s1 = PC s.
Proof.
  intros H. split; [|exact (alu_branch_same_PC _ _ _ _ H)].
  unfold alu_branch, ALU in H. revert H. msimpl.
  destruct (Z.eqb_spec ireg (math_op ADD)) as [->|_]; [cbn; auto|].
  destruct (Z.eqb_spec ireg (math_op SUB)) as [->|_]; [cbn; auto|].
  destruct (Z.eqb_spec ireg (math_op MUL)) as [->|_]; [cbn; auto|].
  destruct (Z.eqb_spec ireg (math_op CMP)) as [->|_]; [cbn; auto 10|].
  discriminate.
Qed.

(** A successful dispatch was an instruction of [binary_op] other than HLT. *)
Lemma basic_branch_inv ireg s s1 :
  basic_branch ireg s = (s1, Ok tt) ->
  exists name,
    ireg = opcode name /\ name <> HLT /\ instructions name s = (s1, Ok tt).
Proof.
  unfold basic_branch. destruct (binary_op ireg) as [name|] eqn:E; [|discriminate].
  intros H. exists name. split; [now apply binary_op_inv|]. split; [|exact H].
  intros ->. discriminate H.
Qed.

Lemma opcode_in_table name : In (opcode name) table_opcodes.
Proof. destruct name; cbn; auto 20. Qed.

(** HLT leaves the loop from inside its handler; [move_PC] is not reached
    and the interpreter exits with status 0. *)
Lemma halt_iteration s a b :
  getitem (ram s) (PC s) = Some (opcode HLT) ->
  getitem (ram s) (PC s + 1) = Some a ->
  getitem (ram s) (PC s + 2) = Some b ->
  run_step s = (latched a b s, Raise (SystemExit None)) /\
  exit_status (SystemExit None) = 0.
Proof.
  intros H0 H1 H2. split; [|reflexivity].
  rewrite (run_step_fetched _ _ _ _ H0 H1 H2). reflexivity.
Qed.

(** C1: whenever an iteration of the loop completes without an exception,
    the fetched opcode [ireg] is a byte, its shift by 6 is the value of its
    top two bits (the operand count), and: if bit 4 of the opcode (the "sets
    PC itself" bit) is clear, the program counter has advanced by exactly
    operand count + 1 and the rest of the state is what the handler left; if
    the bit is set, the engine adds nothing and the state, program counter
    included, is exactly what the handler left.  (HLT never completes an
    iteration: see [halt_iteration].) *)
Theorem pc_advance_rule s s' :
  run_step s = (s', Ok tt) ->
  exists ireg a b s1,
    getitem (ram s) (PC s) = Some ireg /\
    fetch s = (latched a b s, Ok ireg) /\
    (alu_field ireg = 1 /\ alu_branch ireg (latched a b s) = (s1, Ok tt) \/
     alu_field ireg = 0 /\ basic_branch ireg (latched a b s) = (s1, Ok tt)) /\
    0 <= ireg < 256 /\
    Z.shiftr ireg 6 = 2 * Z.b2z (Z.testbit ireg 7) + Z.b2z (Z.testbit ireg 6) /\
    (Z.testbit ireg 4 = false ->
     PC s' = PC s + (Z.shiftr ireg 6 + 1) /\
     s' = set_PC (PC s + (Z.shiftr ireg 6 + 1)) s1) /\
    (Z.testbit ireg 4 = true -> s' = s1).
Proof.
  intros H. unfold run_step in H.
  apply bind_inv_ok in H as (s0 & ireg & Hf & H).
  pose proof Hf as Hf'. apply fetch_inv in Hf' as (a & b & H0 & H1 & H2 & ->).
  exists ireg, a, b.
  destruct (alu_field_01 ireg) as [E|E]; rewrite E in H; cbn [Z.eqb] in H;
    apply bind_inv_ok in H as (s1 & [] & Hb & Hm); exists s1.
  - destruct (basic_branch_inv _ _ _ Hb) as (name & -> & Hne & Hi).
    destruct (table_opcode_fields _ (opcode_in_table name))
      as (Hr & Htop & _ & Hpc & _).
    repeat (split; [solve [auto]|]). split; intros Hbit; rewrite Hbit in Hpc.
    + rewrite move_PC_advance in Hm by (rewrite Hpc; discriminate).
      injection Hm as <-.
      assert (HPC : PC s1 = PC s).
      { destruct name; try discriminate Hbit; try congruence;
          cbn [instructions] in Hi.
        - exact (ldi_same_PC _ _ _ Hi).
        - exact (prn_same_PC _ _ _ Hi).
        - exact (push_same_PC _ _ _ Hi).
        - exact (pop_same_PC _ _ _ Hi). }
      cbn. rewrite HPC. auto.
    + rewrite move_PC_stay in Hm by exact Hpc. congruence.
  - destruct (alu_branch_inv _ _ _ Hb) as (Hin & HPC). cbn in HPC.
    destruct (table_opcode_fields _ Hin) as (Hr & Htop & _ & Hpc & _).
    repeat (split; [solve [auto]|]). split; intros Hbit; rewrite Hbit in Hpc.
    + rewrite move_PC_advance in Hm by (rewrite Hpc; discriminate).
      injection Hm as <-. cbn. rewrite HPC. auto.
    + rewrite move_PC_stay in Hm by exact Hpc. congruence.
Qed.

Lemma pc_advance_rule_witness :
  exists s', run_step ldi_demo = (s', Ok tt) /\ PC s' = 3.
Proof.
  exists (fst (run_step ldi_demo)).
  assert (H : run_step ldi_demo = (fst (run_step ldi_demo), Ok tt))
    by (vm_compute; reflexivity).
  split; [exact H|].
  destruct (pc_advance_rule _ _ H)
    as (ireg & a & b & s1 & H0 & _ & _ & _ & _ & Hclear & _).
  vm_compute in H0. injection H0 as <-.
  exact (proj1 (Hclear eq_refl)).
Defined.

(** ** Opcodes outside the tables *)

(** The branch of [run] that prints the opcode and exits with status 1 is
    never taken: the loop body is the same without it. *)
Lemma run_step_two_branches s :
  run_step s =
  (do ireg <- fetch;
   if alu_field ireg =? 1 then do _ <- alu_branch ireg; move_PC ireg
   else do _ <- basic_branch ireg; move_PC ireg) s.
Proof.
  unfold run_step, bind. destruct (fetch s) as [s0 [ireg|e]]; [|reflexivity].
  destruct (alu_field_01 ireg) as [E|E]; rewrite E; reflexivity.
Qed.

(** What the loop does with an opcode of neither table: an ALU-classified
    one reaches the ALU's generic exception, any other one the failed lookup
    in [binary_op]; nothing is printed in either case. *)
Lemma unknown_opcode_raises s ireg a b :
  getitem (ram s) (PC s) = Some ireg ->
  getitem (ram s) (PC s + 1) = Some a ->
  getitem (ram s) (PC s + 2) = Some b ->
  ~ In ireg table_opcodes ->
  run_step s =
  (latched a b s,
   Raise (if alu_field ireg =? 1 then PyException "Unsupported ALU operation"
          else KeyError ireg)).
Proof.
  intros H0 H1 H2 Hnot. rewrite (run_step_fetched _ _ _ _ H0 H1 H2).
  destruct (alu_field_01 ireg) as [E|E]; rewrite E; cbn [Z.eqb].
  - unfold basic_branch. destruct (binary_op ireg) as [name|] eqn:Eb.
    + apply binary_op_inv in Eb. subst ireg. destruct Hnot. apply opcode_in_table.
    + reflexivity.
  - unfold alu_branch, ALU. msimpl.
    destruct (Z.eqb_spec ireg (math_op ADD)) as [->|_]; [destruct Hnot; cbn; auto|].
    destruct (Z.eqb_spec ireg (math_op SUB)) as [->|_]; [destruct Hnot; cbn; auto|].
    destruct (Z.eqb_spec ireg (math_op MUL)) as [->|_]; [destruct Hnot; cbn; auto|].
    destruct (Z.eqb_spec ireg (math_op CMP)) as [->|_]; [destruct Hnot; cbn; auto 10|].
    reflexivity.
Qed.


Example unmapped_basic_opcode :
  run_step nop_demo = (latched 0 0 nop_demo, Raise (KeyError 0)) /\
  stdout (fst (run_step nop_demo)) = [].
Proof. split; reflexivity. Qed.

(** ** Conditional jumps *)

Lemma land_1_testbit fl : Z.land fl 1 = Z.b2z (Z.testbit fl 0).
Proof.
  change 1 with (Z.ones 1). rewrite Z.land_ones by lia.
  rewrite Z.bit0_mod. reflexivity.
Qed.

Lemma jeq_ok s a v :
  operand_a s = Some a -> getitem (reg s) a = Some v ->
  jeq s = (set_PC (if Z.testbit (FL s) 0 then v else PC s + 2) s, Ok tt).
Proof.
  intros Ha Hv. unfold jeq. mrun. rewrite land_1_testbit.
  destruct (Z.testbit (FL s) 0); reflexivity.
Qed.

Lemma jne_ok s a v :
  operand_a s = Some a -> getitem (reg s) a = Some v ->
  jne s = (set_PC (if Z.testbit (FL s) 0 then PC s + 2 else v) s, Ok tt).
Proof.
  intros Ha Hv. unfold jne. mrun. rewrite land_1_testbit.
  destruct (Z.testbit (FL s) 0); reflexivity.
Qed.

(** C6: executing JEQ (opcode 0b01010101) with a valid operand register
    loads PC with the register's value when bit 0 of the flags is set and
    moves PC forward by exactly 2 when it is clear; executing JNE (opcode
    0b01010110) does the reverse.  Nothing but PC and the latched fetch
    fields changes, and [move_PC] adds nothing. *)
Theorem conditional_jumps s a b v :
  getitem (ram s) (PC s + 1) = Some a ->
  getitem (ram s) (PC s + 2) = Some b ->
  getitem (reg s) a = Some v ->
  (getitem (ram s) (PC s) = Some (opcode JEQ) ->
   run_step s =
   (set_PC (if Z.testbit (FL s) 0 then v else PC s + 2) (latched a b s), Ok tt)) /\
  (getitem (ram s) (PC s) = Some (opcode JNE) ->
   run_step s =
   (set_PC (if Z.testbit (FL s) 0 then PC s + 2 else v) (latched a b s), Ok tt)).
Proof.
  intros H1 H2 Hv. split; intros H0;
    rewrite (run_step_fetched _ _ _ _ H0 H1 H2);
    change (alu_field _ =? 1) with false; change (alu_field _ =? 0) with true;
    cbv iota; unfold basic_branch; cbn [binary_op opcode instructions].
  - erewrite bind_ok by (apply (jeq_ok _ a v); [reflexivity | exact Hv]).
    apply move_PC_stay. reflexivity.
  - erewrite bind_ok by (apply (jne_ok _ a v); [reflexivity | exact Hv]).
    apply move_PC_stay. reflexivity.
Qed.

Lemma conditional_jumps_witness :
  run_step jeq_demo = (set_PC 19 (latched 2 0 jeq_demo), Ok tt).
Proof.
  exact (proj1 (conditional_jumps jeq_demo 2 0 19 eq_refl eq_refl eq_refl) eq_refl).
Defined.

(** ** CALL and RET *)

Lemma wf_latched a b s : wf s -> wf (latched a b s).
Proof. intros H. exact H. Qed.

(** C7: executing CALL (opcode 0b01010000) with a valid operand register and
    a stack pointer whose decrement is a valid memory subscript decrements
    the stack pointer, stores PC + 2 in the memory cell it then designates,
    and sets PC to the value the operand register holds (the value it held
    before the CALL whenever the operand is not the stack pointer itself).
    After any number of further iterations that leave the stack balanced
    (the stack pointer and the cell it designates as CALL left them),
    executing RET (opcode 0b00010001) sets PC to that pushed address, PC + 2
    of the CALL, and the stack pointer to its value before the CALL. *)
Theorem call_then_ret s a b sp :
  wf s ->
  getitem (ram s) (PC s) = Some (opcode CALL) ->
  getitem (ram s) (PC s + 1) = Some a ->
  getitem (ram s) (PC s + 2) = Some b ->
  valid_index 8 a ->
  getitem (reg s) SP = Some sp ->
  valid_index 256 (sp - 1) ->
  exists s1,
    run_step s = (s1, Ok tt) /\
    getitem (reg s1) SP = Some (sp - 1) /\
    getitem (ram s1) (sp - 1) = Some (PC s + 2) /\
    getitem (reg s1) a = Some (PC s1) /\
    (py_index 8 a <> Some 7%nat -> getitem (reg s) a = Some (PC s1)) /\
    forall n s2 c d,
      run_steps n s1 = (s2, Ok tt) ->
      stack_balanced s1 s2 ->
      getitem (ram s2) (PC s2) = Some (opcode RET) ->
      getitem (ram s2) (PC s2 + 1) = Some c ->
      getitem (ram s2) (PC s2 + 2) = Some d ->
      exists s3,
        run_step s2 = (s3, Ok tt) /\
        PC s3 = PC s + 2 /\
        getitem (reg s3) SP = Some sp.
Proof.
  intros Hwf H0 H1 H2 Hva Hsp Hvalid.
  destruct (call_in_range (latched a b s) a sp (wf_latched a b s Hwf) eq_refl
              Hva Hsp Hvalid)
    as (s1 & address & Hcall & Hset & Haddr & HPC & Hcell & _).
  cbn [reg ram PC latched] in Hset, Hcell.
  pose proof (getitem_setitem_eq _ _ _ _ Hset) as Hsp1.
  exists s1. split.
  { rewrite (run_step_fetched _ _ _ _ H0 H1 H2).
    change (alu_field _ =? 1) with false. change (alu_field _ =? 0) with true.
    cbv iota. unfold basic_branch. cbn [binary_op opcode instructions].
    erewrite bind_ok by exact Hcall. apply move_PC_stay. reflexivity. }
  split; [exact Hsp1|]. split; [exact Hcell|].
  split; [rewrite HPC; exact Haddr|]. split.
  { intros Hne. rewrite HPC, <- Haddr. symmetry.
    eapply getitem_setitem_ne; [exact Hset|].
    destruct Hwf as [_ ->]. exact Hne. }
  intros n s2 c d _ (sp' & Hb1 & Hb2 & Hb3) R0 R1 R2.
  rewrite Hsp1 in Hb1. injection Hb1 as <-. rewrite Hcell in Hb3.
  destruct (setitem_valid (reg s2) SP (sp - 1 + 1)) as [reg' Hset'].
  { eapply getitem_Some_valid; exact Hb2. }
  exists (set_reg reg' (set_PC (PC s + 2) (latched c d s2))). split.
  { rewrite (run_step_fetched _ _ _ _ R0 R1 R2).
    change (alu_field _ =? 1) with false. change (alu_field _ =? 0) with true.
    cbv iota. unfold basic_branch. cbn [binary_op opcode instructions].
    erewrite bind_ok by (eapply ret_ok; cbn [reg ram latched]; eassumption).
    apply move_PC_stay. reflexivity. }
  split; [reflexivity|]. cbn [reg set_reg].
  rewrite (getitem_setitem_eq _ _ _ _ Hset'). f_equal. lia.
Qed.

Lemma call_then_ret_witness :
  exists s1 s3,
    run_step call_demo = (s1, Ok tt) /\
    PC s1 = 6 /\
    run_step (fst (run_steps 2 s1)) = (s3, Ok tt) /\
    PC s3 = 5 /\ getitem (reg s3) SP = Some 244.
Proof.
  assert (Hwf : wf call_demo) by (split; reflexivity).
  assert (Hva : valid_index 8 1) by (unfold valid_index; lia).
  assert (Hvalid : valid_index 256 (244 - 1)) by (unfold valid_index; lia).
  destruct (call_then_ret call_demo 1 1 244 Hwf eq_refl eq_refl eq_refl Hva
              eq_refl Hvalid)
    as (s1 & Hstep & _ & _ & _ & _ & Hret).
  assert (Hs1 : s1 = fst (run_step call_demo)) by (rewrite Hstep; reflexivity).
  subst s1.
  destruct (Hret 2%nat (fst (run_steps 2 (fst (run_step call_demo)))) 0 0)
    as (s3 & Hstep3 & HPC3 & HSP3).
  - vm_compute. reflexivity.
  - exists 243. repeat split; vm_compute; reflexivity.
  - vm_compute. reflexivity.
  - vm_compute. reflexivity.
  - vm_compute. reflexivity.
  - exists (fst (run_step call_demo)), s3.
    split; [exact Hstep|]. split; [vm_compute; reflexivity|].
    split; [exact Hstep3|]. split; [exact HPC3|exact HSP3].
Defined.

(** ** The ALU *)

Lemma wrap_id z : z mod 256 = z <-> 0 <= z <= 255.
Proof.
  split.
  - intros H. pose proof (Z.mod_pos_bound z 256 ltac:(lia)). lia.
  - intros H. apply Z.mod_small. lia.
Qed.

Section Arithmetic.
Variables (s : CPU) (a b x y : Z).
Hypothesis Hx : getitem (reg s) a = Some x.
Hypothesis Hy : getitem (reg s) b = Some y.

Lemma ALU_ADD l :
  setitem (reg s) a (x + y) = Some l ->
  ALU (math_op ADD) (Some a) (Some b) s
  = (set_reg l (add_stdout (OStr "ADDING") s), Ok tt).
Proof.
  intros Hl. unfold ALU. change (math_op ADD =? math_op ADD) with true.
  cbv iota. mrun. reflexivity.
Qed.

Lemma ALU_SUB l :
  setitem (reg s) a (x - y) = Some l ->
  ALU (math_op SUB) (Some a) (Some b) s
  = (set_reg l (add_stdout (OStr "SUBTRACTING") s), Ok tt).
Proof.
  intros Hl. unfold ALU. change (math_op SUB =? math_op ADD) with false.
  change (math_op SUB =? math_op SUB) with true.
  cbv iota. mrun. reflexivity.
Qed.

Lemma ALU_MUL l :
  setitem (reg s) a (x * y) = Some l ->
  ALU (math_op MUL) (Some a) (Some b) s
  = (set_reg l (add_stdout (OStr "MULTIPYING") s), Ok tt).
Proof.
  intros Hl. unfold ALU. change (math_op MUL =? math_op ADD) with false.
  change (math_op MUL =? math_op SUB) with false.
  change (math_op MUL =? math_op MUL) with true.
  cbv iota. mrun. reflexivity.
Qed.

Lemma result_cell v : exists l, setitem (reg s) a v = Some l.
Proof.
  destruct (setitem_valid (reg s) a v) as [l Hl]; eauto.
  eapply getitem_Some_valid; exact Hx.
Qed.
End Arithmetic.

(** C2, amended: for valid register subscripts, ADD, SUB and MUL return
    normally and store into reg[A] the exact integer sum, difference and
    product of the two register values; nothing is reduced modulo 256, so
    the stored value is the 8-bit wrapped one, and lies in 0..255, exactly
    when the exact result lies in 0..255. *)
Theorem alu_arithmetic_is_exact s a b x y :
  getitem (reg s) a = Some x ->
  getitem (reg s) b = Some y ->
  (exists s', ALU (math_op ADD) (Some a) (Some b) s = (s', Ok tt) /\
              getitem (reg s') a = Some (x + y) /\
              ((x + y) mod 256 = x + y <-> 0 <= x + y <= 255)) /\
  (exists s', ALU (math_op SUB) (Some a) (Some b) s = (s', Ok tt) /\
              getitem (reg s') a = Some (x - y) /\
              ((x - y) mod 256 = x - y <-> 0 <= x - y <= 255)) /\
  (exists s', ALU (math_op MUL) (Some a) (Some b) s = (s', Ok tt) /\
              getitem (reg s') a = Some (x * y) /\
              ((x * y) mod 256 = x * y <-> 0 <= x * y <= 255)).
Proof.
  intros Hx Hy. repeat split.
  - destruct (result_cell s a x Hx (x + y)) as [l Hl].
    eexists. split; [eapply ALU_ADD; eassumption|].
    split; [eapply getitem_setitem_eq; exact Hl | apply wrap_id].
  - destruct (result_cell s a x Hx (x - y)) as [l Hl].
    eexists. split; [eapply ALU_SUB; eassumption|].
    split; [eapply getitem_setitem_eq; exact Hl | apply wrap_id].
  - destruct (result_cell s a x Hx (x * y)) as [l Hl].
    eexists. split; [eapply ALU_MUL; eassumption|].
    split; [eapply getitem_setitem_eq; exact Hl | apply wrap_id].
Qed.

Lemma alu_arithmetic_is_exact_witness :
  exists s', ALU (math_op ADD) (Some 0) (Some 1) alu_demo = (s', Ok tt) /\
             getitem (reg s') 0 = Some 300.
Proof.
  destruct (alu_arithmetic_is_exact alu_demo 0 1 200 100 eq_refl eq_refl)
    as ((s' & Hadd & Hval & _) & _).
  exists s'. split; [exact Hadd | exact Hval].
Defined.

(** C2 as stated fails: with 200 and 100 in the registers ADD stores 300,
    not the wrapped 44; SUB of 100 - 200 stores -100, not 156; MUL stores
    20000, not 32.  None of the three results is in 0..255. *)
Lemma alu_does_not_wrap :
  getitem (reg (fst (ALU (math_op ADD) (Some 0) (Some 1) alu_demo))) 0 = Some 300 /\
  (200 + 100) mod 256 = 44 /\
  getitem (reg (fst (ALU (math_op SUB) (Some 1) (Some 0) alu_demo))) 1 = Some (-100) /\
  (100 - 200) mod 256 = 156 /\
  getitem (reg (fst (ALU (math_op MUL) (Some 0) (Some 1) alu_demo))) 0 = Some 20000 /\
  (200 * 100) mod 256 = 32 /\
  snd (ALU (math_op ADD) (Some 0) (Some 1) alu_demo) = Ok tt.
Proof. repeat split; reflexivity. Qed.

Section Compare.
Variables (s : CPU) (a b va vb : Z).
Hypothesis Ha : operand_a s = Some a.
Hypothesis Hb : operand_b s = Some b.
Hypothesis Hva : getitem (reg s) a = Some va.
Hypothesis Hvb : getitem (reg s) b = Some vb.

Lemma ALU_CMP reg_a reg_b :
  ALU (math_op CMP) reg_a reg_b s = (set_FL (cmp_flag va vb) s, Ok tt).
Proof.
  unfold ALU. change (math_op CMP =? math_op ADD) with false.
  change (math_op CMP =? math_op SUB) with false.
  change (math_op CMP =? math_op MUL) with false.
  change (math_op CMP =? math_op CMP) with true.
  cbv iota. mrun. unfold cmp_flag. rewrite Z.gtb_ltb.
  destruct (Z.eqb_spec va vb); destruct (Z.ltb_spec va vb);
    destruct (Z.ltb_spec vb va); try lia; reflexivity.
Qed.
End Compare.

(** C4: with valid register subscripts latched, CMP returns normally and
    changes nothing but the flags, which become exactly 0b00000001 (Equal,
    bit 0) when the two register values are equal, 0b00000100 (Less-than,
    bit 2) when the first is less, and 0b00000010 (Greater-than, bit 1) when
    it is greater; the new value does not depend on the old flags. *)
Theorem cmp_sets_exactly_one_flag s reg_a reg_b a b va vb :
  operand_a s = Some a ->
  operand_b s = Some b ->
  getitem (reg s) a = Some va ->
  getitem (reg s) b = Some vb ->
  exists fl,
    ALU (math_op CMP) reg_a reg_b s = (set_FL fl s, Ok tt) /\
    (va = vb -> fl = 1) /\ (va < vb -> fl = 4) /\ (va > vb -> fl = 2) /\
    (forall n, Z.testbit fl n = true ->
               n = 0 /\ va = vb \/ n = 2 /\ va < vb \/ n = 1 /\ va > vb).
Proof.
  intros Ha Hb Hva Hvb. exists (cmp_flag va vb).
  split; [eapply ALU_CMP; eassumption|]. unfold cmp_flag.
  destruct (Z.eqb_spec va vb) as [Heq|Hne];
    [|destruct (Z.ltb_spec va vb) as [Hlt|Hge]];
    (repeat split; try lia).
  - intros k Hk. left. split; [|assumption].
    destruct k as [|[p|p|]|p]; try discriminate Hk; reflexivity.
  - intros k Hk. right. left. split; [|assumption].
    destruct k as [|[p|[p|p|]|]|p]; try discriminate Hk; reflexivity.
  - intros k Hk. right. right. split; [|lia].
    destruct k as [|[p|[p|p|]|]|p]; try discriminate Hk; reflexivity.
Qed.

Lemma cmp_sets_exactly_one_flag_witness :
  exists fl,
    ALU (math_op CMP) (Some 0) (Some 1) cmp_demo = (set_FL fl cmp_demo, Ok tt) /\
    fl = 1.
Proof.
  destruct (cmp_sets_exactly_one_flag cmp_demo (Some 0) (Some 1) 0 1 5 5
              eq_refl eq_refl eq_refl eq_refl)
    as (fl & Hcmp & Heq & _).
  exists fl. split; [exact Hcmp | exact (Heq eq_refl)].
Defined.

(** C5: CMP never looks at the reg-A and reg-B arguments of the ALU call:
    whatever they are, the outcome is the same, and with valid subscripts
    latched the flags are the comparison of reg[operand_a] with
    reg[operand_b]. *)
Theorem cmp_reads_the_latched_operands s reg_a reg_b a b va vb :
  operand_a s = Some a ->
  operand_b s = Some b ->
  getitem (reg s) a = Some va ->
  getitem (reg s) b = Some vb ->
  (forall reg_a' reg_b',
      ALU (math_op CMP) reg_a reg_b s = ALU (math_op CMP) reg_a' reg_b' s) /\
  ALU (math_op CMP) reg_a reg_b s = (set_FL (cmp_flag va vb) s, Ok tt).
Proof.
  intros Ha Hb Hva Hvb. split.
  - intros reg_a' reg_b'. reflexivity.
  - eapply ALU_CMP; eassumption.
Qed.

(** The arguments name R2 = 3 and R3 = 9, the latched operands R0 = R1 = 5:
    the flags say Equal. *)
Lemma cmp_reads_the_latched_operands_witness :
  ALU (math_op CMP) (Some 2) (Some 3) cmp_demo = (set_FL 1 cmp_demo, Ok tt).
Proof.
  exact (proj2 (cmp_reads_the_latched_operands cmp_demo (Some 2) (Some 3) 0 1 5 5
                  eq_refl eq_refl eq_refl eq_refl)).
Defined.

(** Even without any assumption on the latched fields, the arguments of a
    CMP call do not matter. *)
Lemma cmp_ignores_arguments s reg_a reg_b reg_a' reg_b' :
  ALU (math_op CMP) reg_a reg_b s = ALU (math_op CMP) reg_a' reg_b' s.
Proof. reflexivity. Qed.

(** ADD, by contrast, works on the registers its arguments name. *)
Example add_uses_arguments :
  getitem (reg (fst (ALU (math_op ADD) (Some 2) (Some 3) cmp_demo))) 2 = Some 12 /\
  getitem (reg (fst (ALU (math_op ADD) (Some 2) (Some 3) cmp_demo))) 0 = Some 5.
Proof. split; reflexivity. Qed.

(** ** Loading *)

Lemma load_lines_store_all decimal program failure :
  forall address,
    load_lines decimal program failure address
    = store_all (map (int_base2 decimal) (retained program)) failure address.
Proof.
  induction program as [|instruction rest IH]; intros address; [reflexivity|].
  cbn [load_lines]. fold (clean instruction). unfold retained in *.
  cbn [map List.filter].
  destruct (is_empty (clean instruction)) eqn:E; cbn [negb].
  - apply IH.
  - cbn [map store_all].
    destruct (int_base2 decimal (clean instruction)); [|reflexivity].
    rewrite IH. reflexivity.
Qed.

Lemma store_ram_in_range address num s :
  length (ram s) = 256%nat -> 0 <= address < 256 ->
  exists s', store_ram address num s = (s', Ok tt) /\ length (ram s') = 256%nat.
Proof.
  intros Hlen Hr. destruct (setitem_valid (ram s) address num) as [l Hl].
  { rewrite Hlen. unfold valid_index. lia. }
  exists (set_ram l s). unfold store_ram. rewrite Hl. split; [reflexivity|].
  cbn. rewrite (setitem_length _ _ _ _ Hl). exact Hlen.
Qed.

Lemma store_ram_at_256 num s :
  length (ram s) = 256%nat -> store_ram 256 num s = (s, Raise IndexError).
Proof.
  intros Hlen. unfold store_ram. rewrite setitem_invalid; [reflexivity|].
  rewrite Hlen. unfold valid_index. lia.
Qed.

(** The loop succeeds exactly when every value parsed, the values fit into
    the 256 cells and the file read to its end. *)
Lemma store_all_ok_iff vals failure :
  forall address s,
    length (ram s) = 256%nat -> 0 <= address <= 256 ->
    (exists s', store_all vals failure address s = (s', Ok tt)) <->
    (Forall is_Some vals /\ address + Z.of_nat (length vals) <= 256 /\
     failure = None).
Proof.
  induction vals as [|[num|] rest IH]; intros address s Hlen Hr.
  - cbn [store_all length]. destruct failure as [e|]; split.
    + intros [s' H]. discriminate H.
    + intros (_ & _ & H). discriminate H.
    + intros _. split; [constructor|]. split; [cbn; lia | reflexivity].
    + intros _. eexists. reflexivity.
  - cbn [store_all length]. destruct (Z.eq_dec address 256) as [->|Hne].
    + unfold bind. rewrite (store_ram_at_256 _ _ Hlen). split.
      * intros [s' H]. discriminate H.
      * intros (_ & H & _). lia.
    + destruct (store_ram_in_range address num s Hlen ltac:(lia))
        as (s1 & Hs1 & Hlen1).
      unfold bind. rewrite Hs1. rewrite (IH (address + 1) s1 Hlen1 ltac:(lia)).
      split; intros (HF & Hle & Hend); (split; [|split; [lia | exact Hend]]).
      * constructor; [eauto | exact HF].
      * inversion HF; assumption.
  - cbn [store_all]. split.
    + intros [s' H]. discriminate H.
    + intros [HF _]. inversion HF as [|? ? [x Hx]]. discriminate Hx.
Qed.

(** A line that does not parse, met while the cells still suffice, ends the
    loop with ValueError. *)
Lemma store_all_bad_numeral failure nums rest :
  forall address s,
    length (ram s) = 256%nat -> 0 <= address ->
    address + Z.of_nat (length nums) <= 256 ->
    snd (store_all (map Some nums ++ None :: rest) failure address s)
    = Raise ValueError.
Proof.
  induction nums as [|num nums IH]; intros address s Hlen H0 Hle; [reflexivity|].
  cbn [map app store_all length] in *.
  destruct (store_ram_in_range address num s Hlen ltac:(lia)) as (s1 & Hs1 & Hlen1).
  unfold bind. rewrite Hs1. apply IH; [exact Hlen1 | lia | lia].
Qed.

(** The 257th value has no cell: IndexError. *)
Lemma store_all_too_long failure nums rest :
  forall address s,
    length (ram s) = 256%nat -> 0 <= address <= 256 ->
    address + Z.of_nat (length nums) = 257 ->
    snd (store_all (map Some nums ++ rest) failure address s) = Raise IndexError.
Proof.
  induction nums as [|num nums IH]; intros address s Hlen H0 Hle.
  - cbn in Hle. lia.
  - cbn [map app store_all length] in *. unfold bind.
    destruct (Z.eq_dec address 256) as [->|Hne].
    + rewrite (store_ram_at_256 _ _ Hlen). reflexivity.
    + destruct (store_ram_in_range address num s Hlen ltac:(lia))
        as (s1 & Hs1 & Hlen1).
      rewrite Hs1. apply IH; [exact Hlen1 | lia | lia].
Qed.

(** When every line fits and parses, a failure of the file behind its last
    line is what the loop raises. *)
Lemma store_all_read_failure e nums :
  forall address s,
    length (ram s) = 256%nat -> 0 <= address ->
    address + Z.of_nat (length nums) <= 256 ->
    snd (store_all (map Some nums) (Some e) address s) = Raise e.
Proof.
  induction nums as [|num nums IH]; intros address s Hlen H0 Hle; [reflexivity|].
  cbn [map store_all length] in *.
  destruct (store_ram_in_range address num s Hlen ltac:(lia)) as (s1 & Hs1 & Hlen1).
  unfold bind. rewrite Hs1. apply IH; [exact Hlen1 | lia | lia].
Qed.

Lemma binary_numerals_parse decimal l :
  Forall (binary_numeral decimal) l ->
  exists nums, map (int_base2 decimal) l = map Some nums /\ length nums = length l.
Proof.
  induction 1 as [|value l Hv _ (nums & IH & Hlen)].
  - exists []. auto.
  - unfold binary_numeral in Hv.
    destruct (int_base2 decimal value) as [num|] eqn:E; [|congruence].
    exists (num :: nums). cbn. rewrite E, IH, Hlen. auto.
Qed.

Lemma parsed_is_numeral decimal l :
  Forall is_Some (map (int_base2 decimal) l) <-> Forall (binary_numeral decimal) l.
Proof.
  induction l as [|value l IH]; cbn; [split; constructor|].
  split; intros H; inversion H as [|? ? Hv Hl]; subst; constructor;
    try (apply IH; assumption).
  - unfold binary_numeral. destruct Hv as [x ->]. discriminate.
  - unfold binary_numeral in Hv.
    destruct (int_base2 decimal value); [eauto | congruence].
Qed.

(** A line of binary digits and nothing else is a numeral, whatever the
    digit table, and reads as the number it writes. *)
Lemma to_ascii_bit decimal ch rest :
  is_bit ch ->
  to_ascii decimal (ch :: rest) =
  String (if ch =? 48 then "0"%char else "1"%char) (to_ascii decimal rest).
Proof. intros [-> | ->]; reflexivity. Qed.

Lemma int2_digits_bits decimal value :
  Forall is_bit value ->
  forall acc prev_digit,
    value <> [] \/ prev_digit = true ->
    int2_digits (to_ascii decimal value) acc prev_digit = Some (bits_value value acc).
Proof.
  induction 1 as [|ch rest Hch _ IH]; intros acc prev_digit Hne.
  - destruct Hne as [Hne | ->]; [congruence | reflexivity].
  - rewrite (to_ascii_bit decimal ch rest Hch).
    destruct Hch as [-> | ->]; cbn [Z.eqb Pos.eqb int2_digits Ascii.eqb Bool.eqb];
      rewrite IH by (right; reflexivity); unfold bits_value; cbn [fold_left];
      f_equal; f_equal; lia.
Qed.

Lemma plain_numeral_parses decimal value :
  Forall is_bit value -> value <> [] ->
  int_base2 decimal value = Some (bits_value value 0) /\
  binary_numeral decimal value.
Proof.
  intros Hbits Hne.
  assert (E : int_base2 decimal value = Some (bits_value value 0)).
  { rewrite <- (int2_digits_bits decimal value Hbits 0 false) by (left; exact Hne).
    unfold int_base2.
    destruct Hbits as [|c1 rest H1 Hrest]; [congruence|].
    rewrite (to_ascii_bit decimal c1 rest H1).
    destruct H1 as [-> | ->]; [|reflexivity].
    destruct Hrest as [|c2 rest H2 _]; [reflexivity|].
    rewrite (to_ascii_bit decimal c2 rest H2).
    destruct H2 as [-> | ->]; reflexivity. }
  split; [exact E|]. unfold binary_numeral. rewrite E. discriminate.
Qed.

(** What the [try] statement of [load] makes of the outcome of its body. *)
Lemma try_except_passes {A} (m h : M A) s e :
  snd (m s) = Raise e -> e <> FileNotFoundError ->
  snd (try_except_FileNotFoundError m h s) = Raise e.
Proof.
  unfold try_except_FileNotFoundError. destruct (m s) as [s1 [a|e1]]; cbn.
  - discriminate.
  - intros [= ->] Hne. destruct e; try reflexivity. congruence.
Qed.

Lemma try_except_catches {A} (m h : M A) s :
  snd (m s) = Raise FileNotFoundError ->
  try_except_FileNotFoundError m h s = h (fst (m s)).
Proof.
  unfold try_except_FileNotFoundError. destruct (m s) as [s1 [a|e1]]; cbn.
  - discriminate.
  - intros [= ->]. reflexivity.
Qed.

Lemma try_except_ok_iff (m : M unit) e s :
  (exists s',
      try_except_FileNotFoundError m
        (do _ <- print (OStr "File not found"); raise e) s = (s', Ok tt)) <->
  (exists s', m s = (s', Ok tt)).
Proof.
  unfold try_except_FileNotFoundError. destruct (m s) as [s1 [[]|e1]].
  - split; intros _; eauto.
  - split; intros [s' H]; [|discriminate H].
    destruct e1; discriminate H.
Qed.

Section Load.
Variables (decimal : decimal_table) (argv : list string) (fs : filesystem).
Variable s : CPU.

Lemma load_usage :
  length argv <> 2%nat ->
  load decimal argv fs s =
  (add_stdout (OStr "ERROR: Must have file name") s, Raise (SystemExit (Some 1))).
Proof.
  intros H. unfold load. apply Nat.eqb_neq in H. rewrite H. reflexivity.
Qed.

Lemma load_file_not_found :
  length argv = 2%nat ->
  fs (nth 1 argv EmptyString) = OpenRaises FileNotFoundError ->
  load decimal argv fs s =
  (add_stdout (OStr "File not found") s, Raise (SystemExit (Some 2))).
Proof.
  intros H Hfs. unfold load. rewrite H. cbn [Nat.eqb negb].
  unfold try_except_FileNotFoundError, bind, open. rewrite Hfs. reflexivity.
Qed.

(** Any other exception of [open] leaves [load] as it is. *)
Lemma load_cannot_open e :
  length argv = 2%nat ->
  fs (nth 1 argv EmptyString) = OpenRaises e ->
  e <> FileNotFoundError ->
  load decimal argv fs s = (s, Raise e).
Proof.
  intros H Hfs Hne. unfold load. rewrite H. cbn [Nat.eqb negb].
  unfold try_except_FileNotFoundError, bind, open. rewrite Hfs.
  destruct e; try reflexivity. congruence.
Qed.

Lemma load_existing_file lines failure :
  length argv = 2%nat ->
  fs (nth 1 argv EmptyString) = Lines lines failure ->
  load decimal argv fs s =
  try_except_FileNotFoundError
    (store_all (map (int_base2 decimal) (retained lines)) failure 0)
    (do _ <- print (OStr "File not found"); raise (SystemExit (Some 2))) s.
Proof.
  intros H Hfs. unfold load. rewrite H. cbn [Nat.eqb negb].
  unfold try_except_FileNotFoundError at 1 2. unfold bind at 1, open.
  rewrite Hfs. unfold pure at 1. cbn [fst snd].
  rewrite load_lines_store_all. reflexivity.
Qed.
End Load.

(** The entry script runs nothing when [load] raised. *)
Lemma ls8_load_failed decimal argv fs e fuel :
  snd (load decimal argv fs init) = Raise e ->
  ls8 decimal argv fs fuel = (fst (load decimal argv fs init), Some e).
Proof.
  unfold ls8. destruct (load decimal argv fs init) as [s' [[]|e']]; cbn; congruence.
Qed.

(** C9, amended: [load] fails in exactly these cases, whatever the Unicode
    digit table of the interpreter.  When the argument list does not have
    exactly one argument after the script name (none, or too many) it
    prints the usage error and exits with status 1.  When [open] raises
    FileNotFoundError it prints an error and exits with status 2.  When
    [open] raises anything else (the path is a directory, the file may not
    be read) that exception leaves [load] uncaught and nothing is printed.
    When the file opens, a retained line that [int(value, 2)] rejects, met
    among the first 257 retained lines, ends the load with an uncaught
    ValueError; 257 retained numerals end it with an uncaught IndexError
    (the memory has 256 cells); and when at most 256 lines are retained and
    all are numerals, an exception raised while reading behind the last
    line (bytes that do not decode) leaves [load] uncaught, except
    FileNotFoundError, which is reported like a missing file.  The
    interpreter exits with status 1 after any uncaught exception.  In every
    other case, that is when the file reads to its end, has at most 256
    retained lines and all are numerals, [load] returns normally.
    Whenever [load] fails the entry script executes no instruction. *)
Theorem load_failures decimal argv fs s :
  wf s ->
  (length argv <> 2%nat ->
   load decimal argv fs s =
   (add_stdout (OStr "ERROR: Must have file name") s, Raise (SystemExit (Some 1))) /\
   exit_status (SystemExit (Some 1)) = 1) /\
  (length argv = 2%nat ->
   fs (nth 1 argv EmptyString) = OpenRaises FileNotFoundError ->
   load decimal argv fs s =
   (add_stdout (OStr "File not found") s, Raise (SystemExit (Some 2))) /\
   exit_status (SystemExit (Some 2)) = 2) /\
  (forall e,
      length argv = 2%nat -> fs (nth 1 argv EmptyString) = OpenRaises e ->
      e <> FileNotFoundError ->
      load decimal argv fs s = (s, Raise e)) /\
  (forall lines failure,
      length argv = 2%nat -> fs (nth 1 argv EmptyString) = Lines lines failure ->
      (forall good bad rest,
          retained lines = good ++ bad :: rest ->
          Forall (binary_numeral decimal) good -> ~ binary_numeral decimal bad ->
          (length good <= 256)%nat ->
          snd (load decimal argv fs s) = Raise ValueError) /\
      (forall good rest,
          retained lines = good ++ rest ->
          Forall (binary_numeral decimal) good -> length good = 257%nat ->
          snd (load decimal argv fs s) = Raise IndexError) /\
      (forall e,
          Forall (binary_numeral decimal) (retained lines) ->
          (length (retained lines) <= 256)%nat ->
          failure = Some e -> e <> FileNotFoundError ->
          snd (load decimal argv fs s) = Raise e) /\
      (Forall (binary_numeral decimal) (retained lines) ->
       (length (retained lines) <= 256)%nat ->
       failure = Some FileNotFoundError ->
       snd (load decimal argv fs s) = Raise (SystemExit (Some 2)))) /\
  ((exists s', load decimal argv fs s = (s', Ok tt)) <->
   length argv = 2%nat /\
   exists lines,
     fs (nth 1 argv EmptyString) = Lines lines None /\
     Forall (binary_numeral decimal) (retained lines) /\
     (length (retained lines) <= 256)%nat) /\
  exit_status ValueError = 1 /\ exit_status IndexError = 1 /\
  exit_status UnicodeDecodeError = 1 /\
  (forall name, exit_status (OSError name) = 1) /\
  (forall e fuel,
      snd (load decimal argv fs init) = Raise e ->
      ls8 decimal argv fs fuel = (fst (load decimal argv fs init), Some e)).
Proof.
  intros [Hram _].
  split; [intros H; split; [apply load_usage; exact H | reflexivity]|].
  split; [intros H Hfs; split; [apply load_file_not_found; assumption | reflexivity]|].
  split; [intros e H Hfs Hne; apply load_cannot_open; assumption|].
  split; [|split; [|repeat split; intros; apply ls8_load_failed; assumption]].
  - intros lines failure H Hfs.
    rewrite (load_existing_file decimal argv fs s lines failure H Hfs).
    split; [|split; [|split]].
    + intros good bad rest Hret Hgood Hbad Hlen.
      destruct (binary_numerals_parse decimal good Hgood) as (nums & Hnums & Hl).
      apply try_except_passes; [|discriminate].
      rewrite Hret, map_app, Hnums. cbn [map].
      assert (Eb : int_base2 decimal bad = None).
      { unfold binary_numeral in Hbad.
        destruct (int_base2 decimal bad); [destruct Hbad|]; congruence. }
      rewrite Eb. apply store_all_bad_numeral; [exact Hram | lia | lia].
    + intros good rest Hret Hgood Hlen.
      destruct (binary_numerals_parse decimal good Hgood) as (nums & Hnums & Hl).
      apply try_except_passes; [|discriminate].
      rewrite Hret, map_app, Hnums.
      apply store_all_too_long; [exact Hram | lia | lia].
    + intros e Hall Hlen -> Hne.
      destruct (binary_numerals_parse decimal _ Hall) as (nums & Hnums & Hl).
      apply try_except_passes; [|exact Hne].
      rewrite Hnums. apply store_all_read_failure; [exact Hram | lia | lia].
    + intros Hall Hlen ->.
      destruct (binary_numerals_parse decimal _ Hall) as (nums & Hnums & Hl).
      rewrite try_except_catches; [reflexivity|].
      rewrite Hnums. apply store_all_read_failure; [exact Hram | lia | lia].
  - split.
    + intros [s' Hok].
      destruct (Nat.eq_dec (length argv) 2%nat) as [H|H].
      2: { rewrite (load_usage decimal argv fs s H) in Hok. discriminate Hok. }
      split; [exact H|].
      destruct (fs (nth 1 argv EmptyString)) as [e|lines failure] eqn:Hfs.
      { destruct e;
          try (rewrite (load_cannot_open decimal argv fs s _ H Hfs) in Hok;
               [discriminate Hok | discriminate]).
        rewrite (load_file_not_found decimal argv fs s H Hfs) in Hok.
        discriminate Hok. }
      rewrite (load_existing_file decimal argv fs s lines failure H Hfs) in Hok.
      assert (Hm : exists s', store_all (map (int_base2 decimal) (retained lines))
                                failure 0 s = (s', Ok tt))
        by (eapply try_except_ok_iff; eauto).
      apply (store_all_ok_iff _ _ 0 s Hram ltac:(lia)) in Hm as (HF & Hle & ->).
      exists lines. split; [reflexivity|].
      split; [apply parsed_is_numeral; exact HF|].
      rewrite length_map in Hle. lia.
    + intros (H & lines & Hfs & HF & Hle).
      rewrite (load_existing_file decimal argv fs s lines None H Hfs).
      apply try_except_ok_iff. apply (store_all_ok_iff _ _ 0 s Hram ltac:(lia)).
      split; [apply parsed_is_numeral; exact HF|].
      split; [rewrite length_map; lia | reflexivity].
Qed.

Lemma load_failures_witness :
  snd (load two_digit_ranges ["ls8.py"; "bad.ls8"]%string
         (one_file "bad.ls8" bad_image) init)
  = Raise ValueError.
Proof.
  assert (Hwf : wf init) by (split; reflexivity).
  destruct (load_failures two_digit_ranges ["ls8.py"; "bad.ls8"]%string
              (one_file "bad.ls8" bad_image) init Hwf)
    as (_ & _ & _ & Hfile & _).
  destruct (Hfile bad_image None eq_refl eq_refl) as (Hbad & _).
  apply (Hbad [text_of "10000010"] (text_of "R0") [text_of "00001000"]).
  - reflexivity.
  - constructor; [|constructor]. unfold binary_numeral. vm_compute. discriminate.
  - unfold binary_numeral. vm_compute. intros H. apply H. reflexivity.
  - cbn. lia.
Defined.

(** C9 as stated fails: the argument is given, the file exists and each of
    its 257 lines is a valid binary numeral, and [load] still fails, with an
    uncaught IndexError; so does a call with one argument too many, with the
    usage error, and a call with the name of a directory, with an uncaught
    IsADirectoryError. *)
Lemma load_long_image_fails :
  let argv := ["ls8.py"; "long.ls8"]%string in
  let fs := one_file "long.ls8" long_image in
  length argv = 2%nat /\
  fs (nth 1 argv EmptyString) = Lines long_image None /\
  Forall (binary_numeral two_digit_ranges) (retained long_image) /\
  snd (load two_digit_ranges argv fs init) = Raise IndexError /\
  snd (load two_digit_ranges ["ls8.py"; "long.ls8"; "extra"]%string fs init)
  = Raise (SystemExit (Some 1)) /\
  load two_digit_ranges ["ls8.py"; "images"]%string (a_directory "images") init
  = (init, Raise (OSError "IsADirectoryError")).
Proof.
  cbv zeta. split; [reflexivity|]. split; [reflexivity|].
  split; [|split; [|split]; vm_compute; reflexivity].
  assert (E : retained long_image = long_image) by (vm_compute; reflexivity).
  rewrite E. apply List.Forall_forall. intros x Hin. unfold long_image in Hin.
  apply repeat_spec in Hin. subst x. unfold binary_numeral. vm_compute. discriminate.
Qed.

(** ** The shape of the machine is invariant *)

Lemma store_reg_same_shape i v : preserves same_shape (store_reg i v).
Proof.
  destruct i as [i|].
  - apply preserves_store_reg; [apply same_shape_refl|].
    intros s l H. split; [reflexivity|].
    cbn. eapply setitem_length; exact H.
  - apply preserves_raise. apply same_shape_refl.
Qed.

Lemma store_ram_same_shape i v : preserves same_shape (store_ram i v).
Proof.
  apply preserves_store_ram; [apply same_shape_refl|].
  intros s l H. split; [|reflexivity].
  cbn. eapply setitem_length; exact H.
Qed.

Lemma write_same_shape f :
  (forall s, ram (f s) = ram s /\ reg (f s) = reg s) ->
  preserves same_shape (write f).
Proof.
  intros Hf. apply preserves_write. intros s. destruct (Hf s) as [H1 H2].
  unfold same_shape. rewrite H1, H2. auto.
Qed.

Lemma print_same_shape o : preserves same_shape (print o).
Proof. apply write_same_shape. auto. Qed.

Lemma set_PC_same_shape v : preserves same_shape (write (set_PC v)).
Proof. apply write_same_shape. auto. Qed.

Lemma set_FL_same_shape v : preserves same_shape (write (set_FL v)).
Proof. apply write_same_shape. auto. Qed.

Lemma set_MAR_same_shape v : preserves same_shape (write (set_MAR v)).
Proof. apply write_same_shape. auto. Qed.

Lemma set_MDR_same_shape v : preserves same_shape (write (set_MDR v)).
Proof. apply write_same_shape. auto. Qed.

Lemma set_operand_a_same_shape v : preserves same_shape (write (set_operand_a v)).
Proof. apply write_same_shape. auto. Qed.

Lemma set_operand_b_same_shape v : preserves same_shape (write (set_operand_b v)).
Proof. apply write_same_shape. auto. Qed.

#[local] Hint Resolve store_reg_same_shape store_ram_same_shape
  print_same_shape set_PC_same_shape set_FL_same_shape set_MAR_same_shape
  set_MDR_same_shape set_operand_a_same_shape set_operand_b_same_shape : pres.

Lemma ram_read_same_shape address : preserves same_shape (ram_read address).
Proof. unfold ram_read. pres. Qed.

#[local] Hint Resolve ram_read_same_shape : pres.

Lemma fetch_same_shape : preserves same_shape fetch.
Proof. unfold fetch. pres. Qed.

Lemma instructions_same_shape name : preserves same_shape (instructions name).
Proof.
  destruct name; cbn [instructions];
    unfold halt, ldi, prn, push, pop, call, ret, jmp, jeq, jne; pres.
Qed.

Lemma ALU_same_shape op reg_a reg_b : preserves same_shape (ALU op reg_a reg_b).
Proof. unfold ALU. pres. Qed.

Lemma move_PC_same_shape ireg : preserves same_shape (move_PC ireg).
Proof. unfold move_PC. pres. Qed.

Lemma print_regs_same_shape idx : preserves same_shape (print_regs idx).
Proof. induction idx as [|i idx IH]; cbn [print_regs]; pres. Qed.

Lemma trace_same_shape : preserves same_shape trace.
Proof. unfold trace. pres. apply print_regs_same_shape. Qed.

#[local] Hint Resolve fetch_same_shape instructions_same_shape ALU_same_shape
  move_PC_same_shape trace_same_shape : pres.

Lemma run_step_same_shape : preserves same_shape run_step.
Proof.
  unfold run_step, alu_branch, basic_branch, unrecognized_branch. pres.
Qed.

Lemma wf_init : wf init.
Proof. split; reflexivity. Qed.

(** Every iteration, whether it returns or raises, leaves a machine with 256
    memory cells and 8 registers. *)
Lemma run_step_wf s s' r : wf s -> run_step s = (s', r) -> wf s'.
Proof.
  intros [Hram Hreg] H. destruct (run_step_same_shape _ _ _ H) as [H1 H2].
  split; congruence.
Qed.

Lemma run_steps_wf n : forall s s' r, wf s -> run_steps n s = (s', r) -> wf s'.
Proof.
  induction n as [|n IH]; intros s s' r Hwf; cbn [run_steps].
  - intros [= <- _]. exact Hwf.
  - unfold bind. destruct (run_step s) as [s1 [[]|e]] eqn:E.
    + apply IH. eapply run_step_wf; eassumption.
    + intros [= <- _]. eapply run_step_wf; eassumption.
Qed.

(** The loop itself, for any amount of fuel. *)
Lemma run_wf fuel : forall s, wf s -> wf (fst (run fuel s)).
Proof.
  induction fuel as [|fuel IH]; intros s Hwf; cbn [run]; [exact Hwf|].
  destruct (run_step s) as [s1 [[]|e]] eqn:E.
  - apply IH. eapply run_step_wf; eassumption.
  - eapply run_step_wf; eassumption.
Qed.
